(** * The Gong recording synchronisation pipeline

    A shallow embedding of the provider client ([src/lib/gong/calls.ts],
    [src/lib/gong/auth.ts]), the transcript transformer
    ([src/lib/gong/transform.ts]) and the sync orchestrator with its storage
    operations ([scripts/sync-gong.ts]), followed by the properties of the
    pipeline that the specification states.

    Conventions of the embedding:
    - a JS string is a [string]; [undefined]/absent fields are [option];
    - provider timestamps in milliseconds are [Z]; the seconds obtained by
      [x / 1000] are exact rationals [Qc] (IEEE rounding is not modelled);
    - wall-clock instants ([Date.now()], ISO date strings written by
      [toISOString] and read back by [new Date]) are [Z] milliseconds since
      the epoch: the round trip through the ISO text is exact at that
      precision;
    - a [Map<string, V>] is a [gmap string V]; a table with a primary key is
      a [gmap] from the key to the row;
    - [async] code runs on a single thread of control and is embedded as a
      state-and-exception monad over an explicit world. *)

From Stdlib Require Import Ascii String QArith Qcanon.
From stdpp Require Import gmap strings list fin_maps pretty numbers sorting.

Local Open Scope string_scope.
Local Open Scope Z_scope.
Local Open Scope list_scope.

(** ** JavaScript primitives used by the sources *)

Module JS.

(** A string in a boolean position: only the empty string is falsy. *)
Definition truthy (s : string) : bool :=
  match s with
  | EmptyString => false
  | String _ _ => true
  end.

(** An optional string in a boolean position ([undefined] is falsy). *)
Definition truthy_opt (o : option string) : bool :=
  match o with
  | Some s => truthy s
  | None => false
  end.

(** [a ?? b] on optional strings. *)
Definition nullish {A : Type} (a : option A) (b : A) : A :=
  match a with
  | Some x => x
  | None => b
  end.

(** The integers that [parseInt] can produce, and [NaN]. *)
Inductive number : Type :=
| NaN : number
| Num : Z → number.

(** [x * k] for an integer constant [k]. *)
Definition times (x : number) (k : Z) : number :=
  match x with
  | NaN => NaN
  | Num z => Num (z * k)
  end.

(** White space as matched by [\s] and skipped by [parseInt], restricted
    to the ASCII range: TAB, LF, VT, FF, CR and SPACE. *)
Definition is_space (c : ascii) : bool :=
  let n := N_of_ascii c in
  ((9 <=? n) && (n <=? 13) || (n =? 32))%N.

Definition digit_of (c : ascii) : option N :=
  let n := N_of_ascii c in
  if ((48 <=? n) && (n <=? 57))%N then Some (n - 48)%N else None.

(** The longest prefix of decimal digits, read most significant first;
    [acc] is [None] while no digit has been seen. *)
Fixpoint digits_go (acc : option N) (s : string) : option N :=
  match s with
  | EmptyString => acc
  | String c r =>
      match digit_of c with
      | Some d => digits_go (Some (10 * default 0 acc + d)%N) r
      | None => acc
      end
  end.

Fixpoint skip_spaces (s : string) : string :=
  match s with
  | String c r => if is_space c then skip_spaces r else s
  | EmptyString => EmptyString
  end.

(** [parseInt(s, 10)]: leading white space, an optional sign, then the
    longest run of digits; [NaN] when there is no digit.  The value is the
    mathematical one (exact for magnitudes below 2^53). *)
Definition parseInt (s : string) : number :=
  let t := skip_spaces s in
  let '(neg, body) :=
    match t with
    | String "-" r => (true, r)
    | String "+" r => (false, r)
    | _ => (false, t)
    end in
  match digits_go None body with
  | None => NaN
  | Some n => Num (if neg : bool then - Z.of_N n else Z.of_N n)
  end.

(** [c.toLowerCase()] on the ASCII letters. *)
Definition lower_char (c : ascii) : ascii :=
  let n := N_of_ascii c in
  if ((65 <=? n) && (n <=? 90))%N then ascii_of_N (n + 32) else c.

Fixpoint toLowerCase (s : string) : string :=
  match s with
  | EmptyString => EmptyString
  | String c r => String (lower_char c) (toLowerCase r)
  end.

(** [s.replace(/\s+/g, "-")]: every maximal run of white space becomes one
    dash; [in_run] tells that the previous character was white space. *)
Fixpoint replace_spaces (in_run : bool) (s : string) : string :=
  match s with
  | EmptyString => EmptyString
  | String c r =>
      if is_space c
      then (if in_run then replace_spaces true r
            else String "-" (replace_spaces true r))
      else String c (replace_spaces false r)
  end.

(** [[...new Set(xs)]]: the distinct values in order of first insertion;
    [add_value] is [Set.prototype.add]. *)
Definition add_value (seen : list string) (x : string) : list string :=
  if decide (x ∈ seen) then seen else seen ++ [x].

Definition set_values (xs : list string) : list string :=
  fold_left add_value xs [].

(** [Array.prototype.sort(compareFn)] for a consistent comparator: the
    sort is stable (ECMAScript 2019), so it is embedded as a stable
    insertion sort: [x] goes in front of the first [y] that does not have
    to precede it ([compareFn(x, y) <= 0]). *)
Section sort.
Context {A : Type} (compareFn : A → A → Qc).

Fixpoint sort_insert (x : A) (l : list A) : list A :=
  match l with
  | [] => [x]
  | y :: r =>
      if bool_decide (compareFn x y ≤ 0)%Qc
      then x :: y :: r
      else y :: sort_insert x r
  end.

Definition sort (l : list A) : list A := foldr sort_insert [] l.
End sort.

End JS.

(** ** Provider types ([src/types/gong.ts]) *)

Record GongPaginationRecords := {
  totalRecords : Z;
  currentPageSize : Z;
  currentPageNumber : Z;
  records_cursor : option string
}.

Record GongCallMedia := {
  audioUrl : option string;
  videoUrl : option string
}.

Inductive MediaKind := Video | Audio.

Record GongCall := {
  call_id : string;
  call_title : string;
  call_started : string;
  call_duration : Z;
  call_media : MediaKind;
  call_purpose : option string
}.

Record GongParty := {
  party_id : string;
  emailAddress : option string;
  party_name : option string;
  speakerId : option string
}.

Record GongSentence := {
  sentence_start : Z;
  sentence_end : Z;
  sentence_text : string
}.

Record GongTranscriptEntry := {
  entry_speakerId : string;
  sentences : list GongSentence
}.

Record GongCallTranscript := {
  callId : string;
  transcript : list GongTranscriptEntry
}.

Record GongTranscriptResponse := {
  transcripts_requestId : string;
  callTranscripts : list GongCallTranscript
}.

(** One element of [GongCallsListResponse["calls"]]. *)
Record CallData := {
  metaData : GongCall;
  parties : option (list GongParty);
  media : option GongCallMedia
}.

Record GongCallsListResponse := {
  calls_requestId : string;
  records : GongPaginationRecords;
  calls : list CallData
}.

(** ** Application types ([TranscriptSegment], [Speaker]) *)

Record TranscriptSegment := {
  seg_id : string;
  startTime : Qc;
  endTime : Qc;
  speaker : string;
  text : string
}.

Record Speaker := {
  spk_id : string;
  spk_name : string;
  color : string
}.

(** ** Constants ([src/lib/constants.ts]) *)

Definition SPEAKER_COLORS : list string :=
  [ "#6366f1"; "#22c55e"; "#f59e0b"; "#ef4444"; "#8b5cf6";
    "#06b6d4"; "#ec4899"; "#14b8a6"; "#f97316"; "#84cc16" ].

(** ** Transcript transformer ([src/lib/gong/transform.ts]) *)

Definition buildSpeakerMap (ps : list GongParty) : gmap string string :=
  fold_left
    (λ (map : gmap string string) party,
       let display :=
         JS.nullish (party_name party)
           (JS.nullish (emailAddress party) "Unknown") in
       let map :=
         match speakerId party with
         | Some sid => if JS.truthy sid then <[sid := display]> map else map
         | None => map
         end in
       if JS.truthy (party_id party)
       then <[party_id party := display]> map
       else map)
    ps ∅.

(** [x / 1000] on a millisecond timestamp. *)
Definition ms_to_seconds (ms : Z) : Qc := (Qc_of_Z ms / Qc_of_Z 1000)%Qc.

(** The two nested [for] loops of [parseGongTranscript]: the state is the
    array built so far and the counter [segmentId]. *)
Definition push_sentence (speakerName : string)
    (st : list TranscriptSegment * N) (sentence : GongSentence)
    : list TranscriptSegment * N :=
  let '(segments, segmentId) := st in
  let segmentId := (segmentId + 1)%N in
  (segments ++ [ {| seg_id := "seg-" +:+ pretty segmentId;
                    startTime := ms_to_seconds (sentence_start sentence);
                    endTime := ms_to_seconds (sentence_end sentence);
                    speaker := speakerName;
                    text := sentence_text sentence |} ],
   segmentId).

Definition push_entry (speakerMap : gmap string string)
    (st : list TranscriptSegment * N) (entry : GongTranscriptEntry)
    : list TranscriptSegment * N :=
  let speakerName := JS.nullish (speakerMap !! entry_speakerId entry) "Speaker" in
  fold_left (push_sentence speakerName) (sentences entry) st.

Definition flatten_transcript (t : GongCallTranscript)
    (speakerMap : gmap string string) : list TranscriptSegment :=
  fst (fold_left (push_entry speakerMap) (transcript t) ([], 0%N)).

Definition by_startTime (a b : TranscriptSegment) : Qc :=
  (startTime a - startTime b)%Qc.

Definition parseGongTranscript (t : GongCallTranscript)
    (speakerMap : gmap string string) : list TranscriptSegment :=
  JS.sort by_startTime (flatten_transcript t speakerMap).

Definition speaker_id_of (name : string) : string :=
  JS.replace_spaces false (JS.toLowerCase name).

Definition palette_color (i : nat) : string :=
  default "" (SPEAKER_COLORS !! (i mod length SPEAKER_COLORS)%nat).

Definition make_speaker (i : nat) (name : string) : Speaker :=
  {| spk_id := speaker_id_of name;
     spk_name := name;
     color := palette_color i |}.

Definition extractSpeakers (segments : list TranscriptSegment) : list Speaker :=
  let speakerNames := JS.set_values (map speaker segments) in
  imap make_speaker speakerNames.

(** The fallback that derives speakers from the parties; a name or address
    is kept when it is a non-empty string. *)
Definition extractSpeakersFromParties (ps : list GongParty) : list Speaker :=
  let names :=
    omap (λ p,
            match party_name p with
            | Some n => if JS.truthy n then Some n else None
            | None =>
                match emailAddress p with
                | Some e => if JS.truthy e then Some e else None
                | None => None
                end
            end) ps in
  imap make_speaker (JS.set_values names).

(** ** Exceptions, the world and the monad of effects *)

(** What the sources can throw: the typed rate-limit signal of the client,
    a plain [Error] with its message, a rejected [fetch] (transport
    failure), a body that [response.json()] cannot parse, and a constraint
    violation raised by the storage engine on the named table. *)
Inductive Exception : Type :=
| GongRateLimitError (retryAfterSeconds : JS.number)
| Error (message : string)
| FetchFailed
| JsonSyntaxError
| SqliteConstraint (table : string).

Inductive Result (A : Type) : Type :=
| Ok (a : A)
| Throw (e : Exception).
Arguments Ok {A} a.
Arguments Throw {A} e.

(** [error instanceof GongRateLimitError] *)
Definition is_rate_limit (e : Exception) : bool :=
  match e with
  | GongRateLimitError _ => true
  | _ => false
  end.

(** *** What the provider is asked and what it answers *)

(** A [Date] sent in the list filter: an instant, or an instant moved back
    by some months with [setMonth] (the calendar arithmetic is kept
    symbolic). *)
Inductive DateTime : Type :=
| At (ms : Z)
| MonthsBefore (months : JS.number) (ms : Z).

Record ListCallsOptions := {
  fromDateTime : option DateTime;
  toDateTime : option DateTime;
  opt_cursor : option string;
  includeMedia : bool
}.

(** The JSON body of [POST /v2/calls/extensive]. *)
Record ListCallsBody := {
  body_filter : option (option DateTime * option DateTime);
  body_cursor : option string;
  body_contentSelector : bool
}.

(** A request as the provider sees it; the [Authorization] header carries
    [accessKey:accessKeySecret] (its base64 text encoding is left out). *)
Inductive Request : Type :=
| CallsExtensive (authorization : string) (body : ListCallsBody)
| CallsTranscript (authorization : string) (callIds : list string).

(** An HTTP response: status, the [Retry-After] header if any, the body as
    text and, when it parses, as the JSON value of the expected type. *)
Record Response (T : Type) := {
  status : Z;
  retryAfter : option string;
  body_text : string;
  body_json : option T
}.
Arguments status {T} _.
Arguments retryAfter {T} _.
Arguments body_text {T} _.
Arguments body_json {T} _.

(** [response.ok] *)
Definition response_ok {T} (r : Response T) : bool :=
  ((200 <=? status r) && (status r <=? 299))%Z.

(** What one [fetch] comes to: the promise rejects or a response arrives. *)
Inductive Outcome (T : Type) : Type :=
| Rejected
| Responded (r : Response T).
Arguments Rejected {T}.
Arguments Responded {T} r.

(** *** The database file *)

Record RecordingRow := {
  rec_title : string;
  rec_description : option string;
  rec_video_url : string;
  rec_duration : Z;
  rec_space : string;
  rec_source : string;
  rec_media_type : string;
  rec_media_url_expires_at : option Z;
  rec_created_at : string;
  rec_synced_at : Z
}.

Record SegmentRow := {
  segment_recording_id : string;
  start_time : Qc;
  end_time : Qc;
  segment_speaker : string;
  segment_text : string
}.

Record SpeakerRow := {
  speaker_recording_id : string;
  speaker_name : string;
  speaker_color : string
}.

Record VideoFileRow := {
  video_file_recording_id : string;
  view_type : string;
  video_file_url : string
}.

Record ChatMessageRow := {
  chat_recording_id : string;
  chat_timestamp : Qc;
  sender : string;
  message : string
}.

(** The tables of [schema.sql] that the sync script names, each keyed by its
    primary key [id]; the child rows carry the [recording_id] they point
    to. *)
Record Tables := {
  recordings : gmap string RecordingRow;
  segments : gmap string SegmentRow;
  speakers : gmap string SpeakerRow;
  video_files : gmap string VideoFileRow;
  chat_messages : gmap string ChatMessageRow
}.

(** A connection: the tables as the connection sees them, the state to
    return to while a transaction is open, and the history of committed
    states, latest first.  A state is visible to another reader, or after
    the process stops, only once it is committed: the history lists every
    state that a stop of the run can leave behind. *)
Record Database := {
  tables : Tables;
  rollback_to : option Tables;
  committed : list Tables
}.

(** *** Console *)

Record CallResult := {
  synced : bool;
  skipped : bool;
  title : string
}.

(** One constructor per message of the script; the consecutive
    [console.log] (or [console.error]) lines of one message, such as the
    three lines of the summary, are one constructor. *)
Inductive Console : Type :=
| LogNotConfigured
| LogStarting
| LogForceMode
| LogInitializingDb
| LogDatabasePath
| LogFetchingCallsList (months : JS.number)
| LogListRateLimited (retryAfterSeconds : JS.number)
| LogFoundCalls (n : nat)
| LogNoCalls
| LogFetchingTranscripts
| LogFetchedTranscripts (first last total : nat)
| ErrRateLimitExceeded (first last total : nat) (retryAfterSeconds : JS.number)
| LogRateLimitedWaiting (attempt : nat) (retryAfterSeconds : JS.number)
| LogFailedToFetchBatch (error : Exception)
| LogGotTranscripts (n : nat)
| LogSyncingRecordings
| LogSyncing (title : string)
| LogNoMediaUrl (title : string)
| LogSynced (title : string) (nsegments nspeakers : nat) (media_type : string)
| LogCallError (title : string) (error : Exception)
| LogComplete (synced skipped : nat) (failed : option nat)
| ErrSyncFailed (error : Exception).

(** *** The world *)

Record World := {
  GONG_ACCESS_KEY : option string;
  GONG_ACCESS_KEY_SECRET : option string;
  argv : list string;
  (** the successive readings of the wall clock *)
  clock : nat → Z;
  ticks : nat;
  (** what each endpoint of the provider will answer, in order *)
  calls_endpoint : list (Outcome GongCallsListResponse);
  transcript_endpoint : list (Outcome GongTranscriptResponse);
  (** the requests sent so far and the delays slept so far, oldest first *)
  requests : list Request;
  sleeps : list JS.number;
  (** the database file, and whether this run opened it *)
  db : Database;
  db_opened : bool;
  console : list Console
}.

Definition M (A : Type) : Type := World → Result A * World.

Definition ret {A} (a : A) : M A := λ w, (Ok a, w).

Definition bind {A B} (m : M A) (k : A → M B) : M B :=
  λ w, match m w with
       | (Ok a, w') => k a w'
       | (Throw e, w') => (Throw e, w')
       end.

Definition throw {A} (e : Exception) : M A := λ w, (Throw e, w).

(** [try { m } catch (error) { handler error }] *)
Definition try_catch {A} (m : M A) (handler : Exception → M A) : M A :=
  λ w, match m w with
       | (Ok a, w') => (Ok a, w')
       | (Throw e, w') => handler e w'
       end.

Declare Scope sync_scope.
Delimit Scope sync_scope with sync.
Notation "x ← y ; z" := (bind y (λ x, z))
  (at level 20, y at level 100, z at level 200, only parsing) : sync_scope.
Notation "x ;; z" := (bind x (λ _, z))
  (at level 100, z at level 200, only parsing, right associativity)
  : sync_scope.
Local Open Scope sync_scope.

Definition set_ticks (n : nat) (w : World) : World :=
  {| GONG_ACCESS_KEY := GONG_ACCESS_KEY w;
     GONG_ACCESS_KEY_SECRET := GONG_ACCESS_KEY_SECRET w;
     argv := argv w; clock := clock w; ticks := n;
     calls_endpoint := calls_endpoint w;
     transcript_endpoint := transcript_endpoint w;
     requests := requests w; sleeps := sleeps w;
     db := db w; db_opened := db_opened w; console := console w |}.

Definition set_calls_endpoint (l : list (Outcome GongCallsListResponse))
    (w : World) : World :=
  {| GONG_ACCESS_KEY := GONG_ACCESS_KEY w;
     GONG_ACCESS_KEY_SECRET := GONG_ACCESS_KEY_SECRET w;
     argv := argv w; clock := clock w; ticks := ticks w;
     calls_endpoint := l;
     transcript_endpoint := transcript_endpoint w;
     requests := requests w; sleeps := sleeps w;
     db := db w; db_opened := db_opened w; console := console w |}.

Definition set_transcript_endpoint
    (l : list (Outcome GongTranscriptResponse)) (w : World) : World :=
  {| GONG_ACCESS_KEY := GONG_ACCESS_KEY w;
     GONG_ACCESS_KEY_SECRET := GONG_ACCESS_KEY_SECRET w;
     argv := argv w; clock := clock w; ticks := ticks w;
     calls_endpoint := calls_endpoint w;
     transcript_endpoint := l;
     requests := requests w; sleeps := sleeps w;
     db := db w; db_opened := db_opened w; console := console w |}.

Definition set_requests (l : list Request) (w : World) : World :=
  {| GONG_ACCESS_KEY := GONG_ACCESS_KEY w;
     GONG_ACCESS_KEY_SECRET := GONG_ACCESS_KEY_SECRET w;
     argv := argv w; clock := clock w; ticks := ticks w;
     calls_endpoint := calls_endpoint w;
     transcript_endpoint := transcript_endpoint w;
     requests := l; sleeps := sleeps w;
     db := db w; db_opened := db_opened w; console := console w |}.

Definition set_sleeps (l : list JS.number) (w : World) : World :=
  {| GONG_ACCESS_KEY := GONG_ACCESS_KEY w;
     GONG_ACCESS_KEY_SECRET := GONG_ACCESS_KEY_SECRET w;
     argv := argv w; clock := clock w; ticks := ticks w;
     calls_endpoint := calls_endpoint w;
     transcript_endpoint := transcript_endpoint w;
     requests := requests w; sleeps := l;
     db := db w; db_opened := db_opened w; console := console w |}.

Definition set_db (d : Database) (w : World) : World :=
  {| GONG_ACCESS_KEY := GONG_ACCESS_KEY w;
     GONG_ACCESS_KEY_SECRET := GONG_ACCESS_KEY_SECRET w;
     argv := argv w; clock := clock w; ticks := ticks w;
     calls_endpoint := calls_endpoint w;
     transcript_endpoint := transcript_endpoint w;
     requests := requests w; sleeps := sleeps w;
     db := d; db_opened := db_opened w; console := console w |}.

Definition set_db_opened (b : bool) (w : World) : World :=
  {| GONG_ACCESS_KEY := GONG_ACCESS_KEY w;
     GONG_ACCESS_KEY_SECRET := GONG_ACCESS_KEY_SECRET w;
     argv := argv w; clock := clock w; ticks := ticks w;
     calls_endpoint := calls_endpoint w;
     transcript_endpoint := transcript_endpoint w;
     requests := requests w; sleeps := sleeps w;
     db := db w; db_opened := b; console := console w |}.

Definition set_console (l : list Console) (w : World) : World :=
  {| GONG_ACCESS_KEY := GONG_ACCESS_KEY w;
     GONG_ACCESS_KEY_SECRET := GONG_ACCESS_KEY_SECRET w;
     argv := argv w; clock := clock w; ticks := ticks w;
     calls_endpoint := calls_endpoint w;
     transcript_endpoint := transcript_endpoint w;
     requests := requests w; sleeps := sleeps w;
     db := db w; db_opened := db_opened w; console := l |}.

(** [console.log] and [console.error] *)
Definition console_log (line : Console) : M unit :=
  λ w, (Ok tt, set_console (console w ++ [line]) w).

(** [Date.now()] / [new Date()]: the next reading of the clock. *)
Definition Date_now : M Z :=
  λ w, (Ok (clock w (ticks w)), set_ticks (S (ticks w)) w).

(** [await sleep(ms)] *)
Definition sleep (ms : JS.number) : M unit :=
  λ w, (Ok tt, set_sleeps (sleeps w ++ [ms]) w).

(** ** Authentication ([src/lib/gong/auth.ts]) *)

Definition isGongConfigured : M bool :=
  λ w, (Ok (JS.truthy_opt (GONG_ACCESS_KEY w)
            && JS.truthy_opt (GONG_ACCESS_KEY_SECRET w)), w).

Definition getGongAuthHeader : M string :=
  λ w, match GONG_ACCESS_KEY w, GONG_ACCESS_KEY_SECRET w with
       | Some accessKey, Some accessKeySecret =>
           if JS.truthy accessKey && JS.truthy accessKeySecret
           then (Ok (accessKey +:+ ":" +:+ accessKeySecret), w)
           else (Throw (Error "Missing Gong credentials. Set GONG_ACCESS_KEY and GONG_ACCESS_KEY_SECRET environment variables."), w)
       | _, _ =>
           (Throw (Error "Missing Gong credentials. Set GONG_ACCESS_KEY and GONG_ACCESS_KEY_SECRET environment variables."), w)
       end.

(** ** Provider client ([src/lib/gong/calls.ts]) *)

(** [await fetch(...)] on each endpoint: the request is recorded and the
    next answer of the endpoint is taken; an endpoint with no answer left
    is a dead connection ([fetch] rejects). *)
Definition fetch_calls (body : ListCallsBody) (authHeader : string)
    : M (Response GongCallsListResponse) :=
  λ w,
    let w := set_requests (requests w ++ [CallsExtensive authHeader body]) w in
    match calls_endpoint w with
    | [] => (Throw FetchFailed, w)
    | Rejected :: rest => (Throw FetchFailed, set_calls_endpoint rest w)
    | Responded r :: rest => (Ok r, set_calls_endpoint rest w)
    end.

Definition fetch_transcript (callIds : list string) (authHeader : string)
    : M (Response GongTranscriptResponse) :=
  λ w,
    let w := set_requests (requests w ++ [CallsTranscript authHeader callIds]) w in
    match transcript_endpoint w with
    | [] => (Throw FetchFailed, w)
    | Rejected :: rest => (Throw FetchFailed, set_transcript_endpoint rest w)
    | Responded r :: rest => (Ok r, set_transcript_endpoint rest w)
    end.

(** [retryAfter ? parseInt(retryAfter, 10) : 60] *)
Definition retry_after_seconds (retryAfter : option string) : JS.number :=
  match retryAfter with
  | Some retryAfter =>
      if JS.truthy retryAfter then JS.parseInt retryAfter else JS.Num 60
  | None => JS.Num 60
  end.

(** The part of [gongFetch] after the response has arrived. *)
Definition handle_response {T} (response : Response T) : M T :=
  if (status response =? 429)%Z then
    let seconds := retry_after_seconds (retryAfter response) in
    throw (GongRateLimitError seconds)
  else if negb (response_ok response) then
    throw (Error ("Gong API error: " +:+ pretty (status response)
                  +:+ " - " +:+ body_text response))
  else
    match body_json response with
    | Some value => ret value
    | None => throw JsonSyntaxError
    end.

Definition gongFetch {T} (fetch : string → M (Response T)) : M T :=
  authHeader ← getGongAuthHeader;
  response ← fetch authHeader;
  handle_response response.

(** The request body that [listCalls] builds from its options. *)
Definition list_calls_body (options : ListCallsOptions) : ListCallsBody :=
  {| body_filter :=
       match fromDateTime options, toDateTime options with
       | None, None => None
       | from, to => Some (from, to)
       end;
     body_cursor :=
       if JS.truthy_opt (opt_cursor options) then opt_cursor options
       else None;
     body_contentSelector := includeMedia options |}.

Definition listCalls (options : ListCallsOptions)
    : M GongCallsListResponse :=
  gongFetch (fetch_calls (list_calls_body options)).

(** The options of one turn of [listAllCalls]: those of the caller and the
    current cursor. *)
Definition with_cursor (options : ListCallsOptions) (cursor : option string)
    : ListCallsOptions :=
  {| fromDateTime := fromDateTime options;
     toDateTime := toDateTime options;
     includeMedia := includeMedia options;
     opt_cursor := cursor |}.

(** The [do ... while (cursor)] loop of [listAllCalls].  Every turn takes
    one answer from the endpoint or throws, so the loop is given one more
    turn than the endpoint has answers and never uses the last one up. *)
Fixpoint listAllCalls_loop (turns : nat) (options : ListCallsOptions)
    (allCalls : list CallData) (cursor : option string)
    : M (list CallData) :=
  match turns with
  | O => throw FetchFailed
  | S turns =>
      response ← listCalls (with_cursor options cursor);
      let allCalls := allCalls ++ calls response in
      let cursor := records_cursor (records response) in
      if JS.truthy_opt cursor
      then listAllCalls_loop turns options allCalls cursor
      else ret allCalls
  end.

Definition listAllCalls (options : ListCallsOptions) : M (list CallData) :=
  λ w, listAllCalls_loop (S (length (calls_endpoint w))) options [] None w.

Definition getTranscripts (callIds : list string)
    : M GongTranscriptResponse :=
  match callIds with
  | [] => ret {| transcripts_requestId := ""; callTranscripts := [] |}
  | _ => gongFetch (fetch_transcript callIds)
  end.

(** ** Storage operations ([scripts/sync-gong.ts]) *)

Definition MEDIA_URL_EXPIRY_HOURS : Z := 8.

Definition set_recordings (m : gmap string RecordingRow) (t : Tables) : Tables :=
  {| recordings := m; segments := segments t; speakers := speakers t;
     video_files := video_files t; chat_messages := chat_messages t |}.

Definition set_segments (m : gmap string SegmentRow) (t : Tables) : Tables :=
  {| recordings := recordings t; segments := m; speakers := speakers t;
     video_files := video_files t; chat_messages := chat_messages t |}.

Definition set_speakers (m : gmap string SpeakerRow) (t : Tables) : Tables :=
  {| recordings := recordings t; segments := segments t; speakers := m;
     video_files := video_files t; chat_messages := chat_messages t |}.

Definition set_video_files (m : gmap string VideoFileRow) (t : Tables) : Tables :=
  {| recordings := recordings t; segments := segments t; speakers := speakers t;
     video_files := m; chat_messages := chat_messages t |}.

Definition set_chat_messages (m : gmap string ChatMessageRow) (t : Tables) : Tables :=
  {| recordings := recordings t; segments := segments t; speakers := speakers t;
     video_files := video_files t; chat_messages := m |}.

(** [stmt.run(...)]: a statement either fails and changes nothing, or
    changes the tables; outside a transaction the change is committed at
    once. *)
Definition run_statement (stmt : Tables → Exception + Tables) : M unit :=
  λ w,
    let d := db w in
    match stmt (tables d) with
    | inl e => (Throw e, w)
    | inr t =>
        (Ok tt,
         set_db {| tables := t;
                   rollback_to := rollback_to d;
                   committed :=
                     match rollback_to d with
                     | None => t :: committed d
                     | Some _ => committed d
                     end |} w)
    end.

(** [db.transaction(fn)(args)]: BEGIN, the body, then COMMIT; when the body
    throws, ROLLBACK and the exception is thrown on. *)
Definition transaction {A} (body : M A) : M A :=
  λ w,
    let d := db w in
    let saved := tables d in
    let w1 := set_db {| tables := saved; rollback_to := Some saved;
                        committed := committed d |} w in
    match body w1 with
    | (Ok a, w2) =>
        (Ok a,
         set_db {| tables := tables (db w2); rollback_to := None;
                   committed := tables (db w2) :: committed (db w2) |} w2)
    | (Throw e, w2) =>
        (Throw e,
         set_db {| tables := saved; rollback_to := None;
                   committed := committed (db w2) |} w2)
    end.

(** [for (const x of xs) { body x }] *)
Fixpoint for_each {A} (xs : list A) (body : A → M unit) : M unit :=
  match xs with
  | [] => ret tt
  | x :: rest => body x;; for_each rest body
  end.

(** [INSERT INTO t ...]: the primary key must be new and the recording the
    row points to must exist. *)
Definition insert_row {Row} (table : string) (id recording_id : string)
    (row : Row) (get : Tables → gmap string Row)
    (set : gmap string Row → Tables → Tables) (t : Tables)
    : Exception + Tables :=
  match get t !! id, recordings t !! recording_id with
  | None, Some _ => inr (set (<[id := row]> (get t)) t)
  | _, _ => inl (SqliteConstraint table)
  end.

(** [INSERT OR REPLACE INTO recordings ...]: the row under [id] is replaced
    as a whole, with [synced_at] read from the clock.  The cascade that the
    engine may run on the children of a replaced row is not modelled: the
    four child tables that the script names are cleared by
    [deleteRecordingData] right after in [processCall], and the [summaries]
    table, which the script never names, is outside the model. *)
Definition upsertRecording (id : string) (title : string)
    (description : option string) (videoUrl : string) (duration : Z)
    (space source mediaType : string) (mediaUrlExpiresAt : option Z)
    (createdAt : string) : M unit :=
  now ← Date_now;
  run_statement (λ t,
    inr (set_recordings
           (<[id := {| rec_title := title;
                       rec_description := description;
                       rec_video_url := videoUrl;
                       rec_duration := duration;
                       rec_space := space;
                       rec_source := source;
                       rec_media_type := mediaType;
                       rec_media_url_expires_at := mediaUrlExpiresAt;
                       rec_created_at := createdAt;
                       rec_synced_at := now |}]> (recordings t)) t)).

Definition deleteRecordingData (recordingId : string) : M unit :=
  run_statement (λ t,
    inr (set_segments
           (filter (λ kv, segment_recording_id kv.2 ≠ recordingId)
                   (segments t)) t));;
  run_statement (λ t,
    inr (set_speakers
           (filter (λ kv, speaker_recording_id kv.2 ≠ recordingId)
                   (speakers t)) t));;
  run_statement (λ t,
    inr (set_video_files
           (filter (λ kv, video_file_recording_id kv.2 ≠ recordingId)
                   (video_files t)) t));;
  run_statement (λ t,
    inr (set_chat_messages
           (filter (λ kv, chat_recording_id kv.2 ≠ recordingId)
                   (chat_messages t)) t)).

Definition segment_row (recordingId : string) (seg : TranscriptSegment)
    : SegmentRow :=
  {| segment_recording_id := recordingId;
     start_time := startTime seg;
     end_time := endTime seg;
     segment_speaker := speaker seg;
     segment_text := text seg |}.

Definition speaker_row (recordingId : string) (spk : Speaker) : SpeakerRow :=
  {| speaker_recording_id := recordingId;
     speaker_name := spk_name spk;
     speaker_color := color spk |}.

Definition insertSegments (recordingId : string)
    (segs : list TranscriptSegment) : M unit :=
  transaction
    (for_each segs (λ seg,
       run_statement
         (insert_row "segments" (recordingId +:+ "-" +:+ seg_id seg)
            recordingId (segment_row recordingId seg) segments set_segments))).

Definition insertSpeakers (recordingId : string) (spks : list Speaker)
    : M unit :=
  transaction
    (for_each spks (λ spk,
       run_statement
         (insert_row "speakers" (recordingId +:+ "-" +:+ spk_id spk)
            recordingId (speaker_row recordingId spk) speakers set_speakers))).

Definition isRecentlySynced (recordingId : string) : M bool :=
  λ w,
    match recordings (tables (db w)) !! recordingId with
    | None => (Ok false, w)
    | Some row =>
        (syncedAt ← ret (rec_synced_at row);
         now ← Date_now;
         let oneHourAgo := now - 60 * 60 * 1000 in
         ret (bool_decide (oneHourAgo < syncedAt))) w
    end.

(** ** The sync orchestrator ([scripts/sync-gong.ts]) *)

Definition media_type_name (m : MediaKind) : string :=
  match m with
  | Video => "video"
  | Audio => "audio"
  end.

(** The segments and speakers of a call: those of its transcript when there
    is one with at least one entry, none otherwise. *)
Definition transform_transcript (callTranscript : option GongCallTranscript)
    (speakerMap : gmap string string)
    : list TranscriptSegment * list Speaker :=
  match callTranscript with
  | Some t =>
      if bool_decide (0 < length (transcript t))%nat
      then
        let segments := parseGongTranscript t speakerMap in
        (segments, extractSpeakers segments)
      else ([], [])
  | None => ([], [])
  end.

(** The body of the [try] block of [processCall], from the point where the
    media URL is known. *)
Definition write_call (call : GongCall) (ps : list GongParty)
    (recordingId mediaUrl : string)
    (transcriptMap : gmap string GongCallTranscript) : M CallResult :=
  now ← Date_now;
  let mediaUrlExpiresAt := now + MEDIA_URL_EXPIRY_HOURS * 60 * 60 * 1000 in
  let callTranscript := transcriptMap !! call_id call in
  let speakerMap := buildSpeakerMap ps in
  let '(segments, speakers) :=
    transform_transcript callTranscript speakerMap in
  upsertRecording recordingId
    (if JS.truthy (call_title call) then call_title call else "Untitled Call")
    (call_purpose call) mediaUrl (call_duration call) "Gong Calls" "gong"
    (media_type_name (call_media call)) (Some mediaUrlExpiresAt)
    (call_started call);;
  deleteRecordingData recordingId;;
  (if bool_decide (0 < length segments)%nat
   then insertSegments recordingId segments else ret tt);;
  (if bool_decide (0 < length speakers)%nat
   then insertSpeakers recordingId speakers else ret tt);;
  console_log (LogSynced (call_title call) (length segments) (length speakers)
                 (media_type_name (call_media call)));;
  ret {| synced := true; skipped := false; title := call_title call |}.

(** [isVideo ? media?.videoUrl : media?.audioUrl] *)
Definition media_url_of (call : GongCall) (media : option GongCallMedia)
    : option string :=
  let isVideo :=
    match call_media call with Video => true | Audio => false end in
  match media with
  | Some m => if isVideo then videoUrl m else audioUrl m
  | None => None
  end.

(** The name given to the recording of a call. *)
Definition recording_id_of (call : GongCall) : string :=
  "gong_" +:+ call_id call.

(** The [try] / [catch] of [processCall]. *)
Definition try_write_call (callData : CallData)
    (transcriptMap : gmap string GongCallTranscript) : M CallResult :=
  let call := metaData callData in
  let ps := JS.nullish (parties callData) [] in
  let media := media callData in
  let recordingId := recording_id_of call in
  try_catch
    (let mediaUrl := media_url_of call media in
     match mediaUrl with
     | Some (String c r) =>
         write_call call ps recordingId (String c r) transcriptMap
     | _ =>
         console_log (LogNoMediaUrl (call_title call));;
         ret {| synced := false; skipped := false; title := call_title call |}
     end)
    (λ error,
       console_log (LogCallError (call_title call) error);;
       ret {| synced := false; skipped := false; title := call_title call |}).

Definition processCall (callData : CallData)
    (transcriptMap : gmap string GongCallTranscript) (force : bool)
    : M CallResult :=
  let call := metaData callData in
  let recordingId := recording_id_of call in
  recent ← (if force then ret false else isRecentlySynced recordingId);
  if negb force && recent
  then ret {| synced := false; skipped := true; title := call_title call |}
  else
    console_log (LogSyncing (call_title call));;
    try_write_call callData transcriptMap.

(** [transcriptMap.set(t.callId, t)] for every transcript of a response. *)
Definition set_all (ts : list GongCallTranscript)
    (transcriptMap : gmap string GongCallTranscript)
    : gmap string GongCallTranscript :=
  fold_left (λ (m : gmap string GongCallTranscript) t, <[callId t := t]> m)
    ts transcriptMap.

Definition TRANSCRIPT_BATCH_SIZE : nat := 50.
Definition MAX_RETRIES_PER_BATCH : nat := 3.

(** How one turn of the [while] loop ends. *)
Inductive Turn : Type :=
| Break (transcriptMap : gmap string GongCallTranscript)
| Again (retryCount : nat).

(** The [while (retryCount < MAX_RETRIES_PER_BATCH)] loop for one batch.
    A turn that does not leave the loop adds one to [retryCount], so
    [MAX_RETRIES_PER_BATCH] turns are all the loop can take. *)
Fixpoint fetch_batch (turns : nat) (callIds : list string)
    (first last total : nat) (retryCount : nat)
    (transcriptMap : gmap string GongCallTranscript)
    : M (gmap string GongCallTranscript) :=
  match turns with
  | O => ret transcriptMap
  | S turns =>
      if bool_decide (retryCount < MAX_RETRIES_PER_BATCH)%nat then
        turn ← try_catch
          (transcriptResponse ← getTranscripts callIds;
           let transcriptMap :=
             set_all (callTranscripts transcriptResponse) transcriptMap in
           console_log (LogFetchedTranscripts first last total);;
           ret (Break transcriptMap))
          (λ error,
             match error with
             | GongRateLimitError retryAfterSeconds =>
                 let retryCount := S retryCount in
                 if bool_decide (MAX_RETRIES_PER_BATCH ≤ retryCount)%nat then
                   console_log (ErrRateLimitExceeded first last total
                                  retryAfterSeconds);;
                   throw error
                 else
                   console_log (LogRateLimitedWaiting retryCount
                                  retryAfterSeconds);;
                   sleep (JS.times retryAfterSeconds 1000);;
                   ret (Again retryCount)
             | _ =>
                 console_log (LogFailedToFetchBatch error);;
                 ret (Break transcriptMap)
             end);
        match turn with
        | Break transcriptMap => ret transcriptMap
        | Again retryCount =>
            fetch_batch turns callIds first last total retryCount transcriptMap
        end
      else ret transcriptMap
  end.

(** [calls.slice(i, j)] *)
Definition slice {A} (i j : nat) (l : list A) : list A :=
  take (j - i) (drop i l).

(** The values of [i] in [for (i = 0; i < n; i += TRANSCRIPT_BATCH_SIZE)]. *)
Definition batch_starts (n : nat) : list nat :=
  filter (λ i, i mod TRANSCRIPT_BATCH_SIZE = 0)%nat (seq 0 n).

Fixpoint fold_m {A S} (xs : list A) (body : S → A → M S) (s : S) : M S :=
  match xs with
  | [] => ret s
  | x :: rest => s ← body s x; fold_m rest body s
  end.

Definition fetch_all_transcripts (calls : list CallData)
    : M (gmap string GongCallTranscript) :=
  fold_m (batch_starts (length calls))
    (λ transcriptMap i,
       let batch := slice i (i + TRANSCRIPT_BATCH_SIZE) calls in
       let callIds := map (λ c, call_id (metaData c)) batch in
       fetch_batch MAX_RETRIES_PER_BATCH callIds (i + 1)
         (Nat.min (i + TRANSCRIPT_BATCH_SIZE) (length calls)) (length calls)
         0%nat transcriptMap)
    ∅.

(** [for (const call of calls) results.push(processCall(...))] *)
Definition process_all (calls : list CallData)
    (transcriptMap : gmap string GongCallTranscript) (force : bool)
    : M (list CallResult) :=
  fold_m calls
    (λ results call,
       result ← processCall call transcriptMap force;
       ret (results ++ [result]))
    [].

Definition count_synced (results : list CallResult) : nat :=
  length (filter (λ r, synced r = true) results).
Definition count_skipped (results : list CallResult) : nat :=
  length (filter (λ r, skipped r = true) results).
Definition count_failed (results : list CallResult) : nat :=
  length (filter (λ r, synced r = false ∧ skipped r = false) results).

(** [monthsArg.split("=")[1]] *)
Fixpoint until_equals (s : string) : string :=
  match s with
  | EmptyString => EmptyString
  | String c r => if Ascii.eqb c "=" then EmptyString else String c (until_equals r)
  end.

Fixpoint after_equals (s : string) : option string :=
  match s with
  | EmptyString => None
  | String c r => if Ascii.eqb c "=" then Some r else after_equals r
  end.

Definition months_of_argv (args : list string) : JS.number :=
  match List.find (λ arg, String.prefix "--months=" arg) args with
  | Some monthsArg =>
      match after_equals monthsArg with
      | Some rest => JS.parseInt (until_equals rest)
      | None => JS.NaN
      end
  | None => JS.Num 3
  end.

Definition initDb : M unit := λ w, (Ok tt, set_db_opened true w).
Definition db_close : M unit := λ w, (Ok tt, set_db_opened false w).

(** [fromDate.setMonth(fromDate.getMonth() - months)] followed by
    [toISOString()], which throws on an invalid date. *)
Definition months_before (months : JS.number) (ms : Z) : M DateTime :=
  match months with
  | JS.NaN => throw (Error "RangeError: Invalid time value")
  | JS.Num _ => ret (MonthsBefore months ms)
  end.

(** The [try] / [catch] around [listAllCalls]; [None] stands for the
    [return] in the handler. *)
Definition list_calls_or_return (months : JS.number) (fromDate toDate : Z)
    : M (option (list CallData)) :=
  try_catch
    (from ← months_before months fromDate;
     calls ← listAllCalls {| fromDateTime := Some from;
                             toDateTime := Some (At toDate);
                             opt_cursor := None;
                             includeMedia := true |};
     ret (Some calls))
    (λ error,
       match error with
       | GongRateLimitError retryAfterSeconds =>
           console_log (LogListRateLimited retryAfterSeconds);;
           db_close;;
           ret None
       | _ => throw error
       end).

(** The rest of [sync] once a non-empty list of calls is known: the
    transcripts, the calls one by one, the summary. *)
Definition sync_calls (calls : list CallData) (force : bool) : M unit :=
  console_log LogFetchingTranscripts;;
  transcriptMap ← fetch_all_transcripts calls;
  console_log (LogGotTranscripts (size transcriptMap));;
  console_log LogSyncingRecordings;;
  results ← process_all calls transcriptMap force;
  let failed := count_failed results in
  console_log (LogComplete (count_synced results)
                 (count_skipped results)
                 (if bool_decide (0 < failed)%nat
                  then Some failed else None));;
  db_close;;
  ret tt.

Definition sync : M unit :=
  configured ← isGongConfigured;
  if negb configured then
    console_log LogNotConfigured;;
    ret tt
  else
    args ← (λ w, (Ok (argv w), w));
    let force := bool_decide ("--force" ∈ args) in
    let months := months_of_argv args in
    console_log LogStarting;;
    (if force then console_log LogForceMode else ret tt);;
    console_log LogInitializingDb;;
    initDb;;
    console_log LogDatabasePath;;
    toDate ← Date_now;
    fromDate ← Date_now;
    console_log (LogFetchingCallsList months);;
    listed ← list_calls_or_return months fromDate toDate;
    match listed with
    | None => ret tt
    | Some calls =>
        console_log (LogFoundCalls (length calls));;
        if bool_decide (length calls = 0)%nat then
          console_log LogNoCalls;;
          db_close;;
          ret tt
        else sync_calls calls force
    end.

(** The last lines of the script: [sync().catch(...)]; the result is the
    exit code of the process. *)
Definition main (w : World) : Z * World :=
  match sync w with
  | (Ok _, w') => (0, w')
  | (Throw error, w') =>
      (1, set_console (console w' ++ [ErrSyncFailed error]) w')
  end.

(** ** Notions used to state the properties *)

(** The comparator [(a, b) => key(a) - key(b)]. *)
Definition compare_keys {A} (key : A → Qc) (x y : A) : Qc :=
  (key x - key y)%Qc.

(** The entry-then-sentence traversal of a transcript. *)
Definition entry_sentences (t : GongCallTranscript)
    : list (GongTranscriptEntry * GongSentence) :=
  flat_map (λ e, map (λ s, (e, s)) (sentences e)) (transcript t).

(** The segment pushed for the [n]-th sentence met. *)
Definition segment_of (speakerMap : gmap string string) (n : N)
    (es : GongTranscriptEntry * GongSentence) : TranscriptSegment :=
  {| seg_id := "seg-" +:+ pretty n;
     startTime := ms_to_seconds (sentence_start es.2);
     endTime := ms_to_seconds (sentence_end es.2);
     speaker := JS.nullish (speakerMap !! entry_speakerId es.1) "Speaker";
     text := sentence_text es.2 |}.


(** A successful response that carries the page [p]. *)
Definition good_page {T} (r : Response T) (p : T) : Prop :=
  response_ok r = true ∧ body_json r = Some p.

(** Both credentials are set to non-empty strings. *)
Definition configured (w : World) : Prop :=
  JS.truthy_opt (GONG_ACCESS_KEY w) = true
  ∧ JS.truthy_opt (GONG_ACCESS_KEY_SECRET w) = true.


(** The answer [o] is a rate-limit signal that asks for a delay of [d]
    seconds. *)
Definition rate_limit_signal {T} (o : Outcome T) (d : JS.number) : Prop :=
  ∃ r, o = Responded r ∧ status r = 429
       ∧ retry_after_seconds (retryAfter r) = d.

(** The world once one transcript request has been sent and answered. *)
Definition transcript_requested (h : string) (callIds : list string)
    (tail : list (Outcome GongTranscriptResponse)) (w : World) : World :=
  set_transcript_endpoint tail
    (set_requests (requests w ++ [CallsTranscript h callIds]) w).

(** No transcript was fetched for the call, or one without entries. *)
Definition no_transcript (transcriptMap : gmap string GongCallTranscript)
    (call : GongCall) : Prop :=
  transcriptMap !! call_id call = None
  ∨ ∃ t, transcriptMap !! call_id call = Some t ∧ transcript t = [].

(** The freshness check does not make [processCall] skip the call. *)
Definition not_recent (recordingId : string) (force : bool) (w : World)
    : Prop :=
  force = true ∨ (isRecentlySynced recordingId w).1 = Ok false.

(** The statements of a list run one after the other on the tables: the
    exception of the first one that fails, if any, and the tables reached. *)
Fixpoint run_all (stmts : list (Tables → Exception + Tables)) (t : Tables)
    : option Exception * Tables :=
  match stmts with
  | [] => (None, t)
  | stmt :: rest =>
      match stmt t with
      | inl e => (Some e, t)
      | inr t' => run_all rest t'
      end
  end.

(** The [INSERT] statements of the two bulk inserts. *)
Definition segment_inserts (recordingId : string)
    (segs : list TranscriptSegment) : list (Tables → Exception + Tables) :=
  map (λ seg,
         insert_row "segments" (recordingId +:+ "-" +:+ seg_id seg)
           recordingId (segment_row recordingId seg) segments set_segments)
      segs.

Definition speaker_inserts (recordingId : string) (spks : list Speaker)
    : list (Tables → Exception + Tables) :=
  map (λ spk,
         insert_row "speakers" (recordingId +:+ "-" +:+ spk_id spk)
           recordingId (speaker_row recordingId spk) speakers set_speakers)
      spks.

(** The row that [processCall] upserts for a call. *)
Definition recording_row (call : GongCall) (url : string) (now synced : Z)
    : RecordingRow :=
  {| rec_title := if JS.truthy (call_title call)
                  then call_title call else "Untitled Call";
     rec_description := call_purpose call;
     rec_video_url := url;
     rec_duration := call_duration call;
     rec_space := "Gong Calls";
     rec_source := "gong";
     rec_media_type := media_type_name (call_media call);
     rec_media_url_expires_at :=
       Some (now + MEDIA_URL_EXPIRY_HOURS * 60 * 60 * 1000);
     rec_created_at := call_started call;
     rec_synced_at := synced |}.

(** The recording is stored with a [synced_at] less than one hour before
    the next reading of the clock. *)
Definition recently_synced (rid : string) (w : World) : Prop :=
  ∃ row, recordings (tables (db w)) !! rid = Some row
         ∧ (clock w (ticks w) - 60 * 60 * 1000 < rec_synced_at row)%Z.

(** The recording is stored with a [synced_at] not before [T0]. *)
Definition synced_since (T0 : Z) (rid : string) (d : Database) : Prop :=
  ∃ row, recordings (tables d) !! rid = Some row
         ∧ (T0 ≤ rec_synced_at row)%Z.

(** The loop over the calls, with the results gathered so far. *)
Definition process_from (calls : list CallData)
    (tm : gmap string GongCallTranscript) (force : bool)
    (results : list CallResult) : M (list CallResult) :=
  fold_m calls
    (λ results call,
       result ← processCall call tm force;
       ret (results ++ [result]))
    results.

(** ** Example data *)

Definition empty_tables : Tables :=
  {| recordings := ∅; segments := ∅; speakers := ∅;
     video_files := ∅; chat_messages := ∅ |}.

(** A video call with its media URL and two parties. *)
Definition demo_call : CallData :=
  {| metaData := {| call_id := "1"; call_title := "Demo";
                    call_started := "2024-05-01T10:00:00Z";
                    call_duration := 60; call_media := Video;
                    call_purpose := None |};
     parties := Some [ {| party_id := "p1"; emailAddress := None;
                          party_name := Some "Ann Lee";
                          speakerId := Some "s1" |};
                       {| party_id := "p2"; emailAddress := Some "bob@x.io";
                          party_name := None; speakerId := Some "s2" |} ];
     media := Some {| audioUrl := None;
                      videoUrl := Some "https://media/1" |} |}.

(** Its transcript: three sentences, two of them starting together, the
    last one said by a speaker that no party declares. *)
Definition demo_transcript : GongCallTranscript :=
  {| callId := "1";
     transcript :=
       [ {| entry_speakerId := "s1";
            sentences := [ {| sentence_start := 2000; sentence_end := 2500;
                              sentence_text := "b" |};
                           {| sentence_start := 1000; sentence_end := 1500;
                              sentence_text := "a" |} ] |};
         {| entry_speakerId := "zz";
            sentences := [ {| sentence_start := 1000; sentence_end := 1200;
                              sentence_text := "c" |} ] |} ] |}.

(** An audio call for which the provider gives no audio URL. *)
Definition call_without_media : CallData :=
  {| metaData := {| call_id := "2"; call_title := "Phone";
                    call_started := "2024-05-02T10:00:00Z";
                    call_duration := 30; call_media := Audio;
                    call_purpose := None |};
     parties := None;
     media := Some {| audioUrl := None;
                      videoUrl := Some "https://media/2" |} |}.

Definition page_response (cs : list CallData) (next : option string)
    : Response GongCallsListResponse :=
  {| status := 200; retryAfter := None; body_text := "";
     body_json :=
       Some {| calls_requestId := "r";
               records := {| totalRecords := 3; currentPageSize := 1;
                             currentPageNumber := 0;
                             records_cursor := next |};
               calls := cs |} |}.

Definition transcripts_response (ts : list GongCallTranscript)
    : Response GongTranscriptResponse :=
  {| status := 200; retryAfter := None; body_text := "";
     body_json := Some {| transcripts_requestId := "r";
                          callTranscripts := ts |} |}.

Definition too_many_requests {T} (retry_after : option string) : Response T :=
  {| status := 429; retryAfter := retry_after;
     body_text := "Too Many Requests"; body_json := None |}.

(** A configured world with an empty database, a clock that advances by a
    millisecond at every reading, and a silent provider. *)
Definition demo_world : World :=
  {| GONG_ACCESS_KEY := Some "key";
     GONG_ACCESS_KEY_SECRET := Some "secret";
     argv := ["node"; "sync-gong.ts"];
     clock := λ n, 1700000000000 + Z.of_nat n;
     ticks := 0;
     calls_endpoint := [];
     transcript_endpoint := [];
     requests := [];
     sleeps := [];
     db := {| tables := empty_tables; rollback_to := None; committed := [] |};
     db_opened := false;
     console := [] |}.

(** The same world without the secret. *)
Definition world_without_credentials : World :=
  {| GONG_ACCESS_KEY := Some "key";
     GONG_ACCESS_KEY_SECRET := None;
     argv := ["node"; "sync-gong.ts"];
     clock := λ n, 1700000000000 + Z.of_nat n;
     ticks := 0;
     calls_endpoint := [Responded (page_response [demo_call] None)];
     transcript_endpoint := [Responded (transcripts_response [demo_transcript])];
     requests := [];
     sleeps := [];
     db := {| tables := empty_tables; rollback_to := None; committed := [] |};
     db_opened := false;
     console := [] |}.

(** A provider that lists the demo call and its transcript. *)
Definition world_with_demo_call : World :=
  set_calls_endpoint [Responded (page_response [demo_call] None)]
    (set_transcript_endpoint
       [Responded (transcripts_response [demo_transcript])] demo_world).



(** A provider that throttles the transcript request twice and then
    answers it, and one that throttles it four times in a row. *)
Definition world_throttled_twice : World :=
  set_transcript_endpoint
    [ Responded (too_many_requests (Some "5"));
      Responded (too_many_requests None);
      Responded (transcripts_response [demo_transcript]) ] demo_world.


(** The demo world once the recording of the demo call is stored. *)
Definition world_with_recording : World :=
  (upsertRecording "gong_1" "Demo" None "https://media/1" 60 "Gong Calls"
     "gong" "video" None "2024-05-01T10:00:00Z" demo_world).2.

(** A world with the database of [w] and a clock stopped at [now]. *)
Definition later_world (now : Z) (w : World) : World :=
  {| GONG_ACCESS_KEY := GONG_ACCESS_KEY w;
     GONG_ACCESS_KEY_SECRET := GONG_ACCESS_KEY_SECRET w;
     argv := argv w; clock := λ _, now; ticks := 0;
     calls_endpoint := calls_endpoint w;
     transcript_endpoint := transcript_endpoint w;
     requests := requests w; sleeps := sleeps w;
     db := db w; db_opened := db_opened w; console := console w |}.

(** How many segment rows and speaker rows of a recording the tables hold. *)
Definition rows_of (rid : string) (t : Tables) : nat * nat :=
  (size (filter (λ kv, segment_recording_id kv.2 = rid) (segments t)),
   size (filter (λ kv, speaker_recording_id kv.2 = rid) (speakers t))).

(** The demo world with a stored transcript of the demo call: its
    recording, one segment, one speaker. *)
Definition stored_tables : Tables :=
  {| recordings :=
       {[ "gong_1" := recording_row (metaData demo_call) "https://media/0"
                        1600000000000 1600000000000 ]};
     segments :=
       {[ "gong_1-seg-1" := {| segment_recording_id := "gong_1";
                               start_time := Qc_of_Z 1;
                               end_time := Qc_of_Z 2;
                               segment_speaker := "Ann Lee";
                               segment_text := "a" |} ]};
     speakers :=
       {[ "gong_1-ann-lee" := {| speaker_recording_id := "gong_1";
                                 speaker_name := "Ann Lee";
                                 speaker_color := "#6366f1" |} ]};
     video_files := ∅;
     chat_messages := ∅ |}.

Definition world_with_stored_transcript : World :=
  set_db {| tables := stored_tables; rollback_to := None;
            committed := [stored_tables] |} demo_world.

(** ** More of the transformer ([src/lib/gong/transform.ts]) *)

(** [formatDuration] on a whole number of seconds: [Math.floor] of a
    quotient is the floor division of [Z], and [mins % 60] is taken only
    for [mins >= 60], where it is the remainder of [Z]. *)
Definition formatDuration (seconds : Z) : string :=
  let mins := seconds / 60 in
  if bool_decide (60 ≤ mins) then
    let hours := mins / 60 in
    let remainingMins := mins mod 60 in
    pretty hours +:+ "h " +:+ pretty remainingMins +:+ "m"
  else pretty mins +:+ "m".

Record GongRecordingListItem := {
  item_id : string;
  item_title : string;
  item_space : string;
  item_duration : string;
  item_speakers : nat;
  item_status : string;
  item_createdAt : string;
  item_source : string;
  item_mediaType : MediaKind
}.

Definition transformGongCallToListItem (call : GongCall)
    (ps : list GongParty) : GongRecordingListItem :=
  {| item_id := "gong_" +:+ call_id call;
     item_title :=
       if JS.truthy (call_title call) then call_title call
       else "Untitled Call";
     item_space := "Gong Calls";
     item_duration := formatDuration (call_duration call);
     item_speakers := length ps;
     item_status := "Processed";
     item_createdAt := call_started call;
     item_source := "gong";
     item_mediaType := call_media call |}.

Record GongRecordingData := {
  data_id : string;
  data_title : string;
  data_description : option string;
  data_videoUrl : string;
  data_duration : Z;
  data_space : string;
  data_source : string;
  data_mediaUrlExpiresAt : option string;
  data_createdAt : string;
  data_speakers : list Speaker;
  data_transcript : list TranscriptSegment
}.

Definition transformGongCall (call : GongCall) (ps : list GongParty)
    (callTranscript : option GongCallTranscript) (mediaUrl : string)
    (mediaUrlExpiresAt : option string) : GongRecordingData :=
  let speakerMap := buildSpeakerMap ps in
  let '(segments, speakers) :=
    match callTranscript with
    | Some t =>
        if bool_decide (0 < length (transcript t))%nat
        then
          let segments := parseGongTranscript t speakerMap in
          (segments, extractSpeakers segments)
        else ([], extractSpeakersFromParties ps)
    | None => ([], extractSpeakersFromParties ps)
    end in
  {| data_id := "gong_" +:+ call_id call;
     data_title :=
       if JS.truthy (call_title call) then call_title call
       else "Untitled Call";
     data_description := call_purpose call;
     data_videoUrl := mediaUrl;
     data_duration := call_duration call;
     data_space := "Gong Calls";
     data_source := "gong";
     data_mediaUrlExpiresAt := mediaUrlExpiresAt;
     data_createdAt := call_started call;
     data_speakers := speakers;
     data_transcript := segments |}.

(** ** Further notions used to state properties *)

(** [party.name ?? party.emailAddress ?? "Unknown"] *)
Definition party_display_name (p : GongParty) : string :=
  JS.nullish (party_name p) (JS.nullish (emailAddress p) "Unknown").

(** The party has the non-empty string [key] as its speaker id or as its
    party id. *)
Definition carries (p : GongParty) (key : string) : Prop :=
  JS.truthy key = true ∧ (speakerId p = Some key ∨ party_id p = key).

(** Every character of the string passes the test. *)
Fixpoint all_chars (test : ascii → bool) (s : string) : bool :=
  match s with
  | EmptyString => true
  | String c r => test c && all_chars test r
  end.


(** The requests that a computation adds are all transcript requests for
    the ids [callIds], at most [n] of them. *)
Definition asks_for (callIds : list string) (n : nat) (w w' : World) : Prop :=
  ∃ new, requests w' = requests w ++ new
         ∧ (length new ≤ n)%nat
         ∧ Forall (λ rq, ∃ h, rq = CallsTranscript h callIds) new.

(** What the database holds about one recording: its row, and its rows in
    the four tables of children. *)
Definition recording_data (rid : string) (t : Tables)
    : option RecordingRow * gmap string SegmentRow * gmap string SpeakerRow
      * gmap string VideoFileRow * gmap string ChatMessageRow :=
  (recordings t !! rid,
   filter (λ kv, segment_recording_id kv.2 = rid) (segments t),
   filter (λ kv, speaker_recording_id kv.2 = rid) (speakers t),
   filter (λ kv, video_file_recording_id kv.2 = rid) (video_files t),
   filter (λ kv, chat_recording_id kv.2 = rid) (chat_messages t)).

(** The tables once the row of a recording is stored and its children
    are deleted. *)
Definition cleared (rid : string) (row : RecordingRow) (t : Tables) : Tables :=
  {| recordings := <[rid := row]> (recordings t);
     segments :=
       filter (λ kv, segment_recording_id kv.2 ≠ rid) (segments t);
     speakers :=
       filter (λ kv, speaker_recording_id kv.2 ≠ rid) (speakers t);
     video_files :=
       filter (λ kv, video_file_recording_id kv.2 ≠ rid) (video_files t);
     chat_messages :=
       filter (λ kv, chat_recording_id kv.2 ≠ rid) (chat_messages t) |}.


(** A character of the decimal text of an integer: a digit or the sign. *)
Definition is_sign_or_digit (c : ascii) : bool :=
  bool_decide (is_Some (JS.digit_of c)) || Ascii.eqb c "-".

(** Every transcript of the map is stored under its own call id. *)
Definition keyed_by_call_id (tm : gmap string GongCallTranscript) : Prop :=
  ∀ id t, tm !! id = Some t → callId t = id.

(** ** More example data *)

(** A second video call, with its media URL. *)
Definition second_call : CallData :=
  {| metaData := {| call_id := "7"; call_title := "Review";
                    call_started := "2024-05-03T10:00:00Z";
                    call_duration := 4000; call_media := Video;
                    call_purpose := Some "weekly" |};
     parties := None;
     media := Some {| audioUrl := None;
                      videoUrl := Some "https://media/7" |} |}.

(** The demo world started with one more argument on the command line. *)
Definition world_with_argument (arg : string) : World :=
  {| GONG_ACCESS_KEY := Some "key";
     GONG_ACCESS_KEY_SECRET := Some "secret";
     argv := ["node"; "sync-gong.ts"; arg];
     clock := λ n, 1700000000000 + Z.of_nat n;
     ticks := 0;
     calls_endpoint := [Responded (page_response [demo_call] None)];
     transcript_endpoint := [];
     requests := [];
     sleeps := [];
     db := {| tables := empty_tables; rollback_to := None; committed := [] |};
     db_opened := false;
     console := [] |}.



(** A provider that throttles the transcript request once, giving the
    moment to retry as a date, and then answers it. *)
Definition world_throttled_until_date : World :=
  set_transcript_endpoint
    [ Responded (too_many_requests (Some "Wed, 21 Oct 2015 07:28:00 GMT"));
      Responded (transcripts_response [demo_transcript]) ] demo_world.
(** ** Properties of the JavaScript primitives *)

Section set_values.
Implicit Types (xs acc : list string) (x a b : string).

Lemma add_values_prefix xs acc :
  ∃ rest, fold_left JS.add_value xs acc = acc ++ rest.
Proof.
  revert acc. induction xs as [|x xs IH]; intros acc; simpl.
  - exists []. by rewrite app_nil_r.
  - unfold JS.add_value at 2. destruct (decide (x ∈ acc)).
    + apply IH.
    + destruct (IH (acc ++ [x])) as [rest ->].
      exists (x :: rest). by rewrite <- app_assoc.
Qed.

Lemma add_values_NoDup xs acc :
  NoDup acc → NoDup (fold_left JS.add_value xs acc).
Proof.
  revert acc. induction xs as [|x xs IH]; intros acc Hacc; simpl; [done|].
  apply IH. unfold JS.add_value. destruct (decide (x ∈ acc)); [done|].
  apply NoDup_app. split_and!; [done| |apply NoDup_singleton].
  intros y Hy Hy'. apply list_elem_of_singleton in Hy'. by subst.
Qed.

Lemma add_values_elem_of xs acc a :
  a ∈ fold_left JS.add_value xs acc ↔ a ∈ acc ∨ a ∈ xs.
Proof.
  revert acc. induction xs as [|x xs IH]; intros acc; simpl.
  - rewrite elem_of_nil. tauto.
  - rewrite IH, elem_of_cons. unfold JS.add_value.
    destruct (decide (x ∈ acc)) as [Hin|Hin].
    + split; [tauto|]. intros [?|[->|?]]; auto.
    + rewrite elem_of_app, list_elem_of_singleton. tauto.
Qed.

(** Beyond the values already seen, a value stands before another one
    only if it occurs in the input before every occurrence of the other. *)
Lemma add_values_order xs acc i j a b :
  NoDup acc →
  fold_left JS.add_value xs acc !! i = Some a →
  fold_left JS.add_value xs acc !! j = Some b →
  (length acc ≤ i)%nat → (i < j)%nat →
  ∃ l1 l2, xs = l1 ++ a :: l2 ∧ b ∉ l1.
Proof.
  revert acc. induction xs as [|x xs IH]; intros acc Hnd Hi Hj Hlen Hij.
  - simpl in *. apply lookup_lt_Some in Hi. lia.
  - simpl in Hi, Hj.
    assert (Hout : NoDup (fold_left JS.add_value xs (JS.add_value acc x)))
      by (apply add_values_NoDup; unfold JS.add_value;
          destruct (decide (x ∈ acc)); [done|];
          apply NoDup_app; split_and!; [done| |apply NoDup_singleton];
          intros y Hy Hy'; apply list_elem_of_singleton in Hy'; by subst).
    destruct (add_values_prefix xs (JS.add_value acc x)) as [rest Hrest].
    assert (Hb : ∀ k, (k < j)%nat → fold_left JS.add_value xs (JS.add_value acc x) !! k ≠ Some b).
    { intros k Hk Hkb. pose proof (NoDup_lookup _ _ _ _ Hout Hkb Hj). lia. }
    unfold JS.add_value in Hi, Hj, Hout, Hrest, Hb.
    destruct (decide (x ∈ acc)) as [Hin|Hin].
    + destruct (IH acc Hnd Hi Hj Hlen Hij) as (l1 & l2 & -> & Hl1).
      exists (x :: l1), l2. split; [done|].
      rewrite not_elem_of_cons. split; [|done]. intros ->.
      apply list_elem_of_lookup in Hin as [k Hk].
      apply (Hb k); [apply lookup_lt_Some in Hk; lia|].
      rewrite Hrest. by apply lookup_app_l_Some.
    + destruct (decide (i = length acc)) as [->|Hne].
      * rewrite Hrest, <- app_assoc in Hi. simpl in Hi.
        rewrite list_lookup_middle in Hi by done. injection Hi as ->.
        exists [], xs. split; [done | apply not_elem_of_nil].
      * assert (NoDup (acc ++ [x])) as Hnd'.
        { apply NoDup_app. split_and!; [done| |apply NoDup_singleton].
          intros y Hy Hy'. apply list_elem_of_singleton in Hy'. by subst. }
        destruct (IH (acc ++ [x]) Hnd' Hi Hj) as (l1 & l2 & -> & Hl1);
          [rewrite length_app; simpl; lia|done|].
        exists (x :: l1), l2. split; [done|].
        rewrite not_elem_of_cons. split; [|done]. intros ->.
        apply (Hb (length acc)); [lia|].
        rewrite Hrest, <- app_assoc. simpl. by rewrite list_lookup_middle.
Qed.
End set_values.

(** C8. For every list of segments, [extractSpeakers] returns the distinct
    speaker names in the order in which they are first seen: the names are
    without repetition, they are those of the segments, and a name stands
    before another one only if it occurs in the segments before every
    occurrence of the other.  The speaker at position [i] (from 0) has the
    colour of the palette at index [i mod 10], so the eleventh one has the
    colour at index 0 again; and the output depends on nothing but the
    ordered list of names. *)
Theorem extractSpeakers_first_seen_palette (segs : list TranscriptSegment) :
  let names := map speaker segs in
  let out := extractSpeakers segs in
  NoDup (map spk_name out)
  ∧ (∀ n, n ∈ map spk_name out ↔ n ∈ names)
  ∧ (∀ i j a b, (i < j)%nat → out !! i = Some a → out !! j = Some b →
       ∃ l1 l2, names = l1 ++ spk_name a :: l2 ∧ spk_name b ∉ l1)
  ∧ (∀ i s, out !! i = Some s →
       SPEAKER_COLORS !! (i mod length SPEAKER_COLORS)%nat = Some (color s))
  ∧ length SPEAKER_COLORS = 10%nat
  ∧ (∀ s, out !! 10%nat = Some s → SPEAKER_COLORS !! 0%nat = Some (color s))
  ∧ (∀ segs', map speaker segs' = names → extractSpeakers segs' = out).
Proof.
  intros names out.
  assert (Hnames : map spk_name out = JS.set_values names).
  { unfold out, extractSpeakers. fold names.
    apply list_eq. intros i. rewrite list_lookup_fmap, list_lookup_imap.
    by destruct (JS.set_values names !! i). }
  assert (Hcolor : ∀ i s, out !! i = Some s → color s = palette_color i).
  { intros i s. unfold out, extractSpeakers.
    rewrite list_lookup_imap. 
    destruct (JS.set_values (map speaker segs) !! i); simpl; [|done].
    by intros [= <-]. }
  assert (Hpal : ∀ i, SPEAKER_COLORS !! (i mod length SPEAKER_COLORS)%nat
                      = Some (palette_color i)).
  { intros i. unfold palette_color.
    destruct (SPEAKER_COLORS !! (i mod length SPEAKER_COLORS)%nat) eqn:E; [done|].
    apply lookup_ge_None in E.
    pose proof (Nat.mod_upper_bound i (length SPEAKER_COLORS)) as Hlt.
    simpl in *. lia. }
  split_and!.
  - rewrite Hnames. apply add_values_NoDup, NoDup_nil_2.
  - intros n. rewrite Hnames. unfold JS.set_values.
    rewrite add_values_elem_of, elem_of_nil. tauto.
  - intros i j a b Hij Hi Hj.
    apply (add_values_order names [] i j); [apply NoDup_nil_2| | |simpl; lia|done].
    + change (JS.set_values names !! i = Some (spk_name a)).
      rewrite <- Hnames, list_lookup_fmap, Hi. done.
    + change (JS.set_values names !! j = Some (spk_name b)).
      rewrite <- Hnames, list_lookup_fmap, Hj. done.
  - intros i s Hi. rewrite (Hcolor i s Hi). apply Hpal.
  - reflexivity.
  - intros s Hs. rewrite (Hcolor _ s Hs). reflexivity.
  - intros segs' Heq. unfold out, extractSpeakers. by rewrite Heq.
Qed.

(** ** Properties of the transcript transformer *)

Section sort_by_key.
Context {A : Type} (key : A → Qc).


Lemma sort_insert_perm x l : JS.sort_insert (compare_keys key) x l ≡ₚ x :: l.
Proof.
  induction l as [|y l IH]; simpl; [done|].
  case_bool_decide; [done|]. rewrite IH. apply Permutation_swap.
Qed.

Lemma sort_perm l : JS.sort (compare_keys key) l ≡ₚ l.
Proof.
  induction l as [|x l IH]; simpl; [done|].
  unfold JS.sort in IH. by rewrite sort_insert_perm, IH.
Qed.




End sort_by_key.

Lemma fold_push_sentence sm e ss acc n :
  fold_left (push_sentence (JS.nullish (sm !! entry_speakerId e) "Speaker"))
    ss (acc, n)
  = (acc ++ imap (λ j s, segment_of sm (n + N.of_nat (S j)) (e, s)) ss,
     (n + N.of_nat (length ss))%N).
Proof.
  revert acc n. induction ss as [|s ss IH]; intros acc n; simpl.
  - by rewrite app_nil_r, N.add_0_r.
  - rewrite IH, <- app_assoc. cbn [imap app length]. f_equal; [|lia].
    f_equal. f_equal.
    apply imap_ext. intros j s' _. unfold compose.
    by replace (n + 1 + N.of_nat (S j))%N
      with (n + N.of_nat (S (S j)))%N by lia.
Qed.

Lemma fold_push_entry sm es acc n :
  fold_left (push_entry sm) es (acc, n)
  = (acc ++ imap (λ j p, segment_of sm (n + N.of_nat (S j)) p)
              (flat_map (λ e, map (λ s, (e, s)) (sentences e)) es),
     (n + N.of_nat (length
            (flat_map (λ e, map (λ s, (e, s)) (sentences e)) es)))%N).
Proof.
  revert acc n. induction es as [|e es IH]; intros acc n; simpl.
  - by rewrite app_nil_r, N.add_0_r.
  - unfold push_entry at 2. rewrite fold_push_sentence, IH.
    rewrite imap_app, length_app, length_map, <- app_assoc, imap_fmap.
    f_equal; [|lia]. f_equal. f_equal.
    apply imap_ext. intros j p _. rewrite ?length_map.
    by replace (n + N.of_nat (length (sentences e)) + N.of_nat (S j))%N
      with (n + N.of_nat (S (length (sentences e) + j)))%N by lia.
Qed.

Lemma flatten_transcript_spec t sm :
  flatten_transcript t sm
  = imap (λ j p, segment_of sm (N.of_nat (S j)) p) (entry_sentences t).
Proof.
  unfold flatten_transcript, entry_sentences. rewrite fold_push_entry. simpl.
  apply imap_ext. intros j p _. f_equal. 
Qed.



(** ** Properties of the provider client *)

Lemma digit_of_pretty_N_char d :
  (d < 10)%N → JS.digit_of (pretty_N_char d) = Some d.
Proof.
  intros Hd. unfold pretty_N_char.
  repeat (destruct d as [|d] using N.peano_ind; [reflexivity|];
          try (exfalso; lia)).
Qed.





Lemma getGongAuthHeader_configured w :
  configured w →
  ∃ h, getGongAuthHeader w = (Ok h, w).
Proof.
  intros [Hk Hs]. unfold getGongAuthHeader.
  destruct (GONG_ACCESS_KEY w) as [k|]; [|done].
  destruct (GONG_ACCESS_KEY_SECRET w) as [s|]; [|done].
  simpl in Hk, Hs. rewrite Hk, Hs. simpl. eauto.
Qed.

Lemma getGongAuthHeader_world w r w' :
  getGongAuthHeader w = (r, w') → w' = w ∧ ∀ s, r ≠ Throw (GongRateLimitError s).
Proof.
  unfold getGongAuthHeader. intros H.
  repeat case_match; simplify_eq; done.
Qed.




Lemma getGongAuthHeader_frame w w' h :
  getGongAuthHeader w = (Ok h, w) →
  GONG_ACCESS_KEY w' = GONG_ACCESS_KEY w →
  GONG_ACCESS_KEY_SECRET w' = GONG_ACCESS_KEY_SECRET w →
  getGongAuthHeader w' = (Ok h, w').
Proof.
  unfold getGongAuthHeader. intros H -> ->.
  repeat case_match; simplify_eq; done.
Qed.

Lemma good_page_not_429 {T} (r : Response T) p :
  good_page r p → (status r =? 429)%Z = false.
Proof.
  intros [Hok _]. unfold response_ok in Hok.
  apply andb_true_iff in Hok as [H1%Z.leb_le H2%Z.leb_le].
  apply Z.eqb_neq. lia.
Qed.

Lemma handle_response_good {T} (r : Response T) p w :
  good_page r p → handle_response r w = (Ok p, w).
Proof.
  intros Hg. unfold handle_response.
  rewrite (good_page_not_429 r p Hg). destruct Hg as [-> ->]. done.
Qed.




(** The turns given to the loop of [listAllCalls] are never used up: any
    larger number of turns gives the same run. *)
Lemma listCalls_consumes options w p w1 :
  listCalls options w = (Ok p, w1) →
  S (length (calls_endpoint w1)) = length (calls_endpoint w).
Proof.
  unfold listCalls, gongFetch, bind.
  destruct (getGongAuthHeader w) as [[h|e] w0] eqn:Hh; [|done].
  destruct (getGongAuthHeader_world _ _ _ Hh) as [-> _].
  unfold fetch_calls. simpl.
  destruct (calls_endpoint w) as [|[|r] rest]; [done..|].
  unfold handle_response, throw, ret.
  repeat case_match; intros [= <- <-]; done.
Qed.

Lemma listAllCalls_loop_turns options :
  ∀ n m allCalls cursor w,
    (length (calls_endpoint w) < n)%nat →
    (length (calls_endpoint w) < m)%nat →
    listAllCalls_loop n options allCalls cursor w
    = listAllCalls_loop m options allCalls cursor w.
Proof.
  induction n as [|n IH]; intros m allCalls cursor w Hn Hm; [lia|].
  destruct m as [|m]; [lia|].
  cbn [listAllCalls_loop]. unfold bind.
  destruct (listCalls (with_cursor options cursor) w) as [[p|e] w1] eqn:Hrun;
    [|done].
  apply listCalls_consumes in Hrun.
  destruct (JS.truthy_opt (records_cursor (records p))); [|done].
  apply IH; lia.
Qed.

(** ** The retry loop of a transcript batch *)

Lemma getTranscripts_rate_limited w h callIds o d tail :
  callIds ≠ [] →
  getGongAuthHeader w = (Ok h, w) →
  transcript_endpoint w = o :: tail →
  rate_limit_signal o d →
  getTranscripts callIds w
  = (Throw (GongRateLimitError d), transcript_requested h callIds tail w).
Proof.
  intros Hne Hh Hscript (r & -> & Hs & <-). unfold getTranscripts.
  destruct callIds as [|c cs]; [done|].
  unfold gongFetch, bind. rewrite Hh. unfold fetch_transcript. simpl.
  rewrite Hscript. unfold handle_response. by rewrite Hs.
Qed.

Lemma getTranscripts_good w h callIds r p tail :
  callIds ≠ [] →
  getGongAuthHeader w = (Ok h, w) →
  transcript_endpoint w = Responded r :: tail →
  good_page r p →
  getTranscripts callIds w = (Ok p, transcript_requested h callIds tail w).
Proof.
  intros Hne Hh Hscript Hg. unfold getTranscripts.
  destruct callIds as [|c cs]; [done|].
  unfold gongFetch, bind. rewrite Hh. unfold fetch_transcript. simpl.
  rewrite Hscript. by rewrite (handle_response_good r p _ Hg).
Qed.

(** One turn of the loop, by what [getTranscripts] does. *)
Lemma fetch_batch_success turns callIds first last total k tm w p w1 :
  (k < MAX_RETRIES_PER_BATCH)%nat →
  getTranscripts callIds w = (Ok p, w1) →
  fetch_batch (S turns) callIds first last total k tm w
  = (Ok (set_all (callTranscripts p) tm),
     set_console (console w1 ++ [LogFetchedTranscripts first last total]) w1).
Proof.
  intros Hk Hget. cbn [fetch_batch]. rewrite bool_decide_eq_true_2 by done.
  unfold bind at 1, try_catch, bind at 1. rewrite Hget. done.
Qed.

Lemma fetch_batch_other_error turns callIds first last total k tm w e w1 :
  (k < MAX_RETRIES_PER_BATCH)%nat →
  getTranscripts callIds w = (Throw e, w1) →
  is_rate_limit e = false →
  fetch_batch (S turns) callIds first last total k tm w
  = (Ok tm, set_console (console w1 ++ [LogFailedToFetchBatch e]) w1).
Proof.
  intros Hk Hget He. cbn [fetch_batch]. rewrite bool_decide_eq_true_2 by done.
  unfold bind at 1, try_catch, bind at 1. rewrite Hget.
  by destruct e.
Qed.

Lemma fetch_batch_retry turns callIds first last total k tm w d w1 :
  (S k < MAX_RETRIES_PER_BATCH)%nat →
  getTranscripts callIds w = (Throw (GongRateLimitError d), w1) →
  fetch_batch (S turns) callIds first last total k tm w
  = fetch_batch turns callIds first last total (S k) tm
      (set_sleeps (sleeps w1 ++ [JS.times d 1000])
         (set_console (console w1 ++ [LogRateLimitedWaiting (S k) d]) w1)).
Proof.
  intros Hk Hget. cbn [fetch_batch].
  rewrite bool_decide_eq_true_2 by lia.
  unfold bind at 1, try_catch, bind at 1. rewrite Hget.
  rewrite bool_decide_eq_false_2 by lia. done.
Qed.

Lemma fetch_batch_exceeded turns callIds first last total k tm w d w1 :
  (k < MAX_RETRIES_PER_BATCH)%nat →
  (MAX_RETRIES_PER_BATCH ≤ S k)%nat →
  getTranscripts callIds w = (Throw (GongRateLimitError d), w1) →
  fetch_batch (S turns) callIds first last total k tm w
  = (Throw (GongRateLimitError d),
     set_console (console w1 ++ [ErrRateLimitExceeded first last total d]) w1).
Proof.
  intros Hk Hk' Hget. cbn [fetch_batch].
  rewrite bool_decide_eq_true_2 by done.
  unfold bind at 1, try_catch, bind at 1. rewrite Hget.
  rewrite bool_decide_eq_true_2 by done. done.
Qed.



(** The turns given to the retry loop are never used up: any number of
    turns from [MAX_RETRIES_PER_BATCH - retryCount] on gives the same run. *)
Lemma fetch_batch_turns callIds first last total :
  ∀ n m k tm w,
    (MAX_RETRIES_PER_BATCH - k ≤ n)%nat →
    (MAX_RETRIES_PER_BATCH - k ≤ m)%nat →
    fetch_batch n callIds first last total k tm w
    = fetch_batch m callIds first last total k tm w.
Proof.
  assert (Hdone : ∀ n k tm w,
            (MAX_RETRIES_PER_BATCH ≤ k)%nat →
            fetch_batch n callIds first last total k tm w = (Ok tm, w)).
  { intros [|n] k tm w Hk; [done|]. cbn [fetch_batch].
    by rewrite bool_decide_eq_false_2 by lia. }
  induction n as [|n IH]; intros m k tm w Hn Hm.
  { rewrite !Hdone by lia. done. }
  destruct m as [|m]; [rewrite !Hdone by lia; done|].
  destruct (decide (k < MAX_RETRIES_PER_BATCH)%nat) as [Hk|Hk];
    [|rewrite !Hdone by lia; done].
  destruct (getTranscripts callIds w) as [[p|e] w1] eqn:Hget.
  - by rewrite !(fetch_batch_success _ _ _ _ _ _ _ _ _ _ Hk Hget).
  - destruct (is_rate_limit e) eqn:He.
    + destruct e as [d| | | |]; try done.
      destruct (decide (S k < MAX_RETRIES_PER_BATCH)%nat) as [Hk'|Hk'].
      * rewrite !(fetch_batch_retry _ _ _ _ _ _ _ _ _ _ Hk' Hget).
        apply IH; lia.
      * assert (Hle : (MAX_RETRIES_PER_BATCH ≤ S k)%nat) by lia.
        by rewrite !(fetch_batch_exceeded _ _ _ _ _ _ _ _ _ _ Hk Hle Hget).
    + by rewrite !(fetch_batch_other_error _ _ _ _ _ _ _ _ _ _ Hk Hget He).
Qed.

Lemma getTranscripts_effect callIds w r w' :
  getTranscripts callIds w = (r, w') →
  sleeps w' = sleeps w ∧ db w' = db w
  ∧ (length (requests w') ≤ S (length (requests w)))%nat.
Proof.
  unfold getTranscripts. destruct callIds as [|c cs].
  - intros [= <- <-]. split_and!; [done..|lia].
  - unfold gongFetch, bind.
    destruct (getGongAuthHeader w) as [[h|e] w0] eqn:Hh;
      destruct (getGongAuthHeader_world _ _ _ Hh) as [-> _];
      [|intros [= <- <-]; split_and!; [done..|lia]].
    unfold fetch_transcript.
    destruct (transcript_endpoint _) as [|[|resp] tail] eqn:Hs; simpl;
      try (intros [= <- <-]; simpl; split_and!;
           [done..|rewrite length_app; simpl; lia]).
    unfold handle_response, throw, ret.
    repeat case_match; intros [= <- <-]; simpl; split_and!;
      try done; rewrite length_app; simpl; lia.
Qed.


(** ** The run as a whole *)





(** ** The per-call step *)

Lemma isRecentlySynced_effect rid w :
  ∃ b w', isRecentlySynced rid w = (Ok b, w')
    ∧ db w' = db w ∧ console w' = console w ∧ clock w' = clock w
    ∧ (ticks w ≤ ticks w')%nat.
Proof.
  unfold isRecentlySynced.
  destruct (recordings (tables (db w)) !! rid) as [row|].
  - eexists _, _. split; [reflexivity|]. simpl. split_and!; [done..|lia].
  - eexists _, _. split; [reflexivity|]. simpl. split_and!; [done..|lia].
Qed.

Lemma write_call_no_transcript call ps rid url tm w :
  no_transcript tm call →
  ∃ w',
    write_call call ps rid url tm w
    = (Ok {| synced := true; skipped := false; title := call_title call |}, w')
    ∧ recordings (tables (db w')) !! rid
      = Some {| rec_title := if JS.truthy (call_title call)
                             then call_title call else "Untitled Call";
                rec_description := call_purpose call;
                rec_video_url := url;
                rec_duration := call_duration call;
                rec_space := "Gong Calls";
                rec_source := "gong";
                rec_media_type := media_type_name (call_media call);
                rec_media_url_expires_at :=
                  Some (clock w (ticks w) + 8 * 60 * 60 * 1000);
                rec_created_at := call_started call;
                rec_synced_at := clock w (S (ticks w)) |}
    ∧ segments (tables (db w'))
      = filter (λ kv, segment_recording_id kv.2 ≠ rid)
          (segments (tables (db w)))
    ∧ speakers (tables (db w'))
      = filter (λ kv, speaker_recording_id kv.2 ≠ rid)
          (speakers (tables (db w)))
    ∧ video_files (tables (db w'))
      = filter (λ kv, video_file_recording_id kv.2 ≠ rid)
          (video_files (tables (db w)))
    ∧ chat_messages (tables (db w'))
      = filter (λ kv, chat_recording_id kv.2 ≠ rid)
          (chat_messages (tables (db w)))
    ∧ console w' = console w ++ [LogSynced (call_title call) 0 0
                                   (media_type_name (call_media call))].
Proof.
  intros Hno. unfold write_call.
  assert (Hpair : transform_transcript (tm !! call_id call)
                    (buildSpeakerMap ps) = ([], []))
    by (destruct Hno as [->|(t & -> & Ht)]; simpl; by rewrite ?Ht).
  unfold bind at 1, Date_now at 1. cbv beta zeta. rewrite Hpair.
  cbn [length]. rewrite bool_decide_eq_false_2 by lia.
  unfold bind at 1, upsertRecording, bind at 1, Date_now at 1,
    run_statement at 1.
  cbn [ticks set_ticks clock db tables].
  unfold bind at 1, deleteRecordingData.
  unfold bind at 1, run_statement at 1. cbn [db set_db tables].
  unfold bind at 1, run_statement at 1. cbn [db set_db tables].
  unfold bind at 1, run_statement at 1. cbn [db set_db tables].
  unfold run_statement at 1. cbn [db set_db tables].
  unfold bind at 1, ret at 1. unfold bind at 1, ret at 1.
  unfold bind at 1, console_log, ret.
  eexists. split; [reflexivity|].
  cbn [db set_db set_console tables recordings segments speakers video_files
       chat_messages set_recordings set_segments set_speakers
       set_video_files set_chat_messages console].
  rewrite lookup_insert_eq. split_and!; reflexivity.
Qed.

(** The step up to the point where the media URL is looked at. *)
Lemma processCall_not_recent callData tm force w :
  not_recent (recording_id_of (metaData callData)) force w →
  ∃ w1,
    processCall callData tm force w
    = try_write_call callData tm
        (set_console
           (console w1 ++ [LogSyncing (call_title (metaData callData))]) w1)
    ∧ db w1 = db w ∧ console w1 = console w ∧ clock w1 = clock w
    ∧ (ticks w ≤ ticks w1)%nat.
Proof.
  intros Hnot. unfold processCall.
  destruct Hnot as [->|Hnot].
  - exists w. split; [reflexivity|]. split_and!; [done..|lia].
  - destruct force.
    + exists w. split; [reflexivity|]. split_and!; [done..|lia].
    + destruct (isRecentlySynced_effect
                  (recording_id_of (metaData callData)) w)
        as (b & w1 & Hrun & Hd & Hc & Hcl & Ht).
      rewrite Hrun in Hnot. simpl in Hnot. injection Hnot as ->.
      exists w1. split; [|done].
      unfold bind at 1. rewrite Hrun. reflexivity.
Qed.

(** C10. For a call that the freshness check does not skip, whose media URL
    is resolved and for which the transcript map has no transcript, or one
    without entries: [processCall] reports the call as synced, the recording
    row is stored, and the segment, speaker, video-file and chat-message
    tables are the former ones without the rows of this recording; no
    segment or speaker row of the recording is left, whatever the parties
    of the call are. *)
Theorem processCall_without_transcript_erases
    (callData : CallData) (transcriptMap : gmap string GongCallTranscript)
    (force : bool) (w : World) (url : string) :
  let call := metaData callData in
  let rid := recording_id_of call in
  not_recent rid force w →
  media_url_of call (media callData) = Some url →
  JS.truthy url = true →
  no_transcript transcriptMap call →
  ∃ w',
    processCall callData transcriptMap force w
    = (Ok {| synced := true; skipped := false; title := call_title call |}, w')
    ∧ is_Some (recordings (tables (db w')) !! rid)
    ∧ segments (tables (db w'))
      = filter (λ kv, segment_recording_id kv.2 ≠ rid)
          (segments (tables (db w)))
    ∧ speakers (tables (db w'))
      = filter (λ kv, speaker_recording_id kv.2 ≠ rid)
          (speakers (tables (db w)))
    ∧ video_files (tables (db w'))
      = filter (λ kv, video_file_recording_id kv.2 ≠ rid)
          (video_files (tables (db w)))
    ∧ chat_messages (tables (db w'))
      = filter (λ kv, chat_recording_id kv.2 ≠ rid)
          (chat_messages (tables (db w)))
    ∧ (∀ id row, segments (tables (db w')) !! id = Some row →
         segment_recording_id row ≠ rid)
    ∧ (∀ id row, speakers (tables (db w')) !! id = Some row →
         speaker_recording_id row ≠ rid).
Proof.
  intros call rid Hnot Hurl Htruthy Hno.
  destruct (processCall_not_recent callData transcriptMap force w Hnot)
    as (w1 & -> & Hd & _).
  unfold try_write_call. fold call rid. rewrite Hurl.
  destruct url as [|c r]; [done|].
  destruct (write_call_no_transcript call (JS.nullish (parties callData) [])
              rid (String c r) transcriptMap
              (set_console (console w1 ++ [LogSyncing (call_title call)]) w1)
              Hno)
    as (w' & Hrun & Hrec & Hseg & Hspk & Hvf & Hchat & _).
  exists w'. unfold try_catch. rewrite Hrun.
  simpl in Hseg, Hspk, Hvf, Hchat. rewrite Hd in Hseg, Hspk, Hvf, Hchat.
  split_and!; try done.
  - intros id row. rewrite Hseg. intros H%map_lookup_filter_Some. by destruct H.
  - intros id row. rewrite Hspk. intros H%map_lookup_filter_Some. by destruct H.
Qed.

(** ** The storage operations *)

Lemma world_eta w : set_db (db w) w = w.
Proof. by destruct w. Qed.

Lemma for_each_statements {A} (xs : list A)
    (stmt : A → Tables → Exception + Tables) w saved :
  rollback_to (db w) = Some saved →
  for_each xs (λ x, run_statement (stmt x)) w
  = (match (run_all (map stmt xs) (tables (db w))).1 with
     | None => Ok tt
     | Some e => Throw e
     end,
     set_db {| tables := (run_all (map stmt xs) (tables (db w))).2;
               rollback_to := Some saved;
               committed := committed (db w) |} w).
Proof.
  revert w. induction xs as [|x xs IH]; intros w Hsaved.
  - simpl. unfold ret. f_equal. rewrite <- (world_eta w) at 1.
    f_equal. destruct (db w); simpl in *. by subst.
  - cbn [for_each map run_all]. unfold bind at 1, run_statement at 1.
    destruct (stmt x (tables (db w))) as [e|t'] eqn:Hstmt.
    + simpl. f_equal. rewrite <- (world_eta w) at 1.
      f_equal. destruct (db w); simpl in *. by subst.
    + rewrite Hsaved. rewrite IH by done. done.
Qed.

(** A transaction around a list of statements commits the outcome of all
    of them as one state, or leaves everything as it was. *)
Lemma transaction_statements {A} (xs : list A)
    (stmt : A → Tables → Exception + Tables) w :
  transaction (for_each xs (λ x, run_statement (stmt x))) w
  = match run_all (map stmt xs) (tables (db w)) with
    | (None, t') =>
        (Ok tt,
         set_db {| tables := t'; rollback_to := None;
                   committed := t' :: committed (db w) |} w)
    | (Some e, _) =>
        (Throw e,
         set_db {| tables := tables (db w); rollback_to := None;
                   committed := committed (db w) |} w)
    end.
Proof.
  unfold transaction.
  rewrite (for_each_statements xs stmt _ (tables (db w))) by done.
  simpl. destruct (run_all (map stmt xs) (tables (db w))) as [[e|] t']; done.
Qed.

Lemma insertSegments_run rid segs w :
  insertSegments rid segs w
  = match run_all (segment_inserts rid segs) (tables (db w)) with
    | (None, t') =>
        (Ok tt,
         set_db {| tables := t'; rollback_to := None;
                   committed := t' :: committed (db w) |} w)
    | (Some e, _) =>
        (Throw e,
         set_db {| tables := tables (db w); rollback_to := None;
                   committed := committed (db w) |} w)
    end.
Proof. apply transaction_statements. Qed.

Lemma insertSpeakers_run rid spks w :
  insertSpeakers rid spks w
  = match run_all (speaker_inserts rid spks) (tables (db w)) with
    | (None, t') =>
        (Ok tt,
         set_db {| tables := t'; rollback_to := None;
                   committed := t' :: committed (db w) |} w)
    | (Some e, _) =>
        (Throw e,
         set_db {| tables := tables (db w); rollback_to := None;
                   committed := committed (db w) |} w)
    end.
Proof. apply transaction_statements. Qed.

(** What a run of segment inserts does to the tables. *)
Lemma segment_inserts_tables rid segs t :
  recordings (run_all (segment_inserts rid segs) t).2 = recordings t
  ∧ speakers (run_all (segment_inserts rid segs) t).2 = speakers t
  ∧ video_files (run_all (segment_inserts rid segs) t).2 = video_files t
  ∧ chat_messages (run_all (segment_inserts rid segs) t).2 = chat_messages t
  ∧ segments t ⊆ segments (run_all (segment_inserts rid segs) t).2
  ∧ ((run_all (segment_inserts rid segs) t).1 = None →
       ∀ seg, seg ∈ segs →
         segments (run_all (segment_inserts rid segs) t).2
           !! (rid +:+ "-" +:+ seg_id seg)
         = Some (segment_row rid seg)).
Proof.
  revert t. induction segs as [|seg segs IH]; intros t.
  - simpl. split_and!; try done. intros _ seg H. by apply elem_of_nil in H.
  - cbn [segment_inserts map run_all]. fold (segment_inserts rid segs).
    destruct (insert_row _ _ _ _ _ _ t) as [e|t1] eqn:Hins;
      [simpl; split_and!; done|].
    unfold insert_row in Hins.
    destruct (segments t !! (rid +:+ "-" +:+ seg_id seg)) eqn:Hold; [done|].
    destruct (recordings t !! rid); [|done].
    injection Hins as <-.
    destruct (IH (set_segments
                    (<[rid +:+ "-" +:+ seg_id seg := segment_row rid seg]>
                       (segments t)) t))
      as (Hr & Hs & Hv & Hc & Hsub & Hall).
    simpl in Hr, Hs, Hv, Hc, Hsub.
    split_and!; try done.
    + etrans; [|exact Hsub]. by apply insert_subseteq.
    + intros Hok seg' [->|Hin]%elem_of_cons; [|by apply Hall].
      eapply lookup_weaken; [|exact Hsub]. apply lookup_insert_eq.
Qed.

Lemma speaker_inserts_tables rid spks t :
  recordings (run_all (speaker_inserts rid spks) t).2 = recordings t
  ∧ segments (run_all (speaker_inserts rid spks) t).2 = segments t
  ∧ video_files (run_all (speaker_inserts rid spks) t).2 = video_files t
  ∧ chat_messages (run_all (speaker_inserts rid spks) t).2 = chat_messages t
  ∧ speakers t ⊆ speakers (run_all (speaker_inserts rid spks) t).2
  ∧ ((run_all (speaker_inserts rid spks) t).1 = None →
       ∀ spk, spk ∈ spks →
         speakers (run_all (speaker_inserts rid spks) t).2
           !! (rid +:+ "-" +:+ spk_id spk)
         = Some (speaker_row rid spk)).
Proof.
  revert t. induction spks as [|spk spks IH]; intros t.
  - simpl. split_and!; try done. intros _ spk H. by apply elem_of_nil in H.
  - cbn [speaker_inserts map run_all]. fold (speaker_inserts rid spks).
    destruct (insert_row _ _ _ _ _ _ t) as [e|t1] eqn:Hins;
      [simpl; split_and!; done|].
    unfold insert_row in Hins.
    destruct (speakers t !! (rid +:+ "-" +:+ spk_id spk)) eqn:Hold; [done|].
    destruct (recordings t !! rid); [|done].
    injection Hins as <-.
    destruct (IH (set_speakers
                    (<[rid +:+ "-" +:+ spk_id spk := speaker_row rid spk]>
                       (speakers t)) t))
      as (Hr & Hs & Hv & Hc & Hsub & Hall).
    simpl in Hr, Hs, Hv, Hc, Hsub.
    split_and!; try done.
    + etrans; [|exact Hsub]. by apply insert_subseteq.
    + intros Hok spk' [->|Hin]%elem_of_cons; [|by apply Hall].
      eapply lookup_weaken; [|exact Hsub]. apply lookup_insert_eq.
Qed.

Lemma write_call_effect call ps rid url tm w :
  ∃ r w',
    write_call call ps rid url tm w = (r, w')
    ∧ recordings (tables (db w'))
      = <[rid := recording_row call url (clock w (ticks w))
                   (clock w (S (ticks w)))]> (recordings (tables (db w)))
    ∧ clock w' = clock w
    ∧ ticks w' = S (S (ticks w))
    ∧ (r = Ok {| synced := true; skipped := false; title := call_title call |}
       ∨ ∃ e, r = Throw e).
Proof.
  unfold write_call. unfold bind at 1, Date_now at 1. cbv beta zeta.
  destruct (transform_transcript (tm !! call_id call) (buildSpeakerMap ps))
    as [segs spks].
  unfold bind at 1, upsertRecording, bind at 1, Date_now at 1,
    run_statement at 1.
  cbn [ticks set_ticks clock db tables].
  unfold bind at 1, deleteRecordingData.
  unfold bind at 1, run_statement at 1. cbn [db set_db tables].
  unfold bind at 1, run_statement at 1. cbn [db set_db tables].
  unfold bind at 1, run_statement at 1. cbn [db set_db tables].
  unfold run_statement at 1. cbn [db set_db tables].
  match goal with
  | |- context [bind _ _ ?w5] => set (w5' := w5)
  end.
  assert (Hrec5 : recordings (tables (db w5'))
                  = <[rid := recording_row call url (clock w (ticks w))
                               (clock w (S (ticks w)))]>
                      (recordings (tables (db w)))) by reflexivity.
  assert (Hclock5 : clock w5' = clock w) by reflexivity.
  assert (Hticks5 : ticks w5' = S (S (ticks w))) by reflexivity.
  clearbody w5'.
  unfold bind at 1.
  assert ((∃ w6, (if bool_decide (0 < length segs)%nat
                 then insertSegments rid segs else ret tt) w5' = (Ok tt, w6)
                ∧ recordings (tables (db w6)) = recordings (tables (db w5'))
                ∧ clock w6 = clock w5' ∧ ticks w6 = ticks w5')
           ∨ ∃ e w6, (if bool_decide (0 < length segs)%nat
                      then insertSegments rid segs else ret tt) w5'
                     = (Throw e, w6)
                ∧ recordings (tables (db w6)) = recordings (tables (db w5'))
                ∧ clock w6 = clock w5' ∧ ticks w6 = ticks w5') as Hseg.
  { case_bool_decide; [|left; by eexists].
    rewrite insertSegments_run.
    destruct (segment_inserts_tables rid segs (tables (db w5'))) as (Hr & _).
    destruct (run_all _ _) as [[e|] t'].
    - right. by eexists _, _.
    - left. by eexists. }
  destruct Hseg as [(w6 & -> & Hrec6 & Hclock6 & Hticks6)
                   |(e & w6 & -> & Hrec6 & Hclock6 & Hticks6)].
  2:{ eexists _, _. split; [reflexivity|]. split_and!; [congruence..|eauto]. }
  unfold bind at 1.
  assert ((∃ w7, (if bool_decide (0 < length spks)%nat
                 then insertSpeakers rid spks else ret tt) w6 = (Ok tt, w7)
                ∧ recordings (tables (db w7)) = recordings (tables (db w6))
                ∧ clock w7 = clock w6 ∧ ticks w7 = ticks w6)
           ∨ ∃ e w7, (if bool_decide (0 < length spks)%nat
                      then insertSpeakers rid spks else ret tt) w6
                     = (Throw e, w7)
                ∧ recordings (tables (db w7)) = recordings (tables (db w6))
                ∧ clock w7 = clock w6 ∧ ticks w7 = ticks w6) as Hspk.
  { case_bool_decide; [|left; by eexists].
    rewrite insertSpeakers_run.
    destruct (speaker_inserts_tables rid spks (tables (db w6))) as (Hr & _).
    destruct (run_all _ _) as [[e|] t'].
    - right. by eexists _, _.
    - left. by eexists. }
  destruct Hspk as [(w7 & -> & Hrec7 & Hclock7 & Hticks7)
                   |(e & w7 & -> & Hrec7 & Hclock7 & Hticks7)].
  2:{ eexists _, _. split; [reflexivity|]. split_and!; [congruence..|eauto]. }
  eexists _, _. split; [reflexivity|]. simpl.
  split_and!; [congruence..|eauto].
Qed.

Lemma isRecentlySynced_eq rid w :
  isRecentlySynced rid w
  = match recordings (tables (db w)) !! rid with
    | None => (Ok false, w)
    | Some row =>
        (Ok (bool_decide
               (clock w (ticks w) - 60 * 60 * 1000 < rec_synced_at row)),
         set_ticks (S (ticks w)) w)
    end.
Proof. unfold isRecentlySynced. by destruct (_ !! rid). Qed.

(** The [try] / [catch] never throws; it leaves the database alone or
    stamps the recording with a reading of the clock. *)
Lemma try_write_call_effect callData tm w :
  ∃ r w',
    try_write_call callData tm w = (Ok r, w')
    ∧ clock w' = clock w ∧ (ticks w ≤ ticks w')%nat
    ∧ skipped r = false
    ∧ ((synced r = false ∧ db w' = db w)
       ∨ ∃ row n, (ticks w ≤ n)%nat ∧ rec_synced_at row = clock w n
           ∧ recordings (tables (db w'))
             = <[recording_id_of (metaData callData) := row]>
                 (recordings (tables (db w)))).
Proof.
  unfold try_write_call, try_catch.
  destruct (media_url_of _ _) as [[|c u]|].
  1,3: eexists _, _; (split; [reflexivity|]); simpl;
       split_and!; [done|lia|done|by left].
  destruct (write_call_effect (metaData callData)
              (JS.nullish (parties callData) [])
              (recording_id_of (metaData callData)) (String c u) tm w)
    as (r & w' & -> & Hrec & Hclock & Hticks & [->|[e ->]]).
  - eexists _, _. split; [reflexivity|]. simpl.
    split_and!; [done|lia|done|]. right.
    eexists _, (S (ticks w)). split_and!; [lia| |exact Hrec]. done.
  - eexists _, _. split; [reflexivity|]. simpl.
    split_and!; [done|lia|done|]. right.
    eexists _, (S (ticks w)). split_and!; [lia| |exact Hrec]. done.
Qed.

Lemma processCall_effect callData tm force w :
  let rid := recording_id_of (metaData callData) in
  ∃ r w',
    processCall callData tm force w = (Ok r, w')
    ∧ clock w' = clock w ∧ (ticks w ≤ ticks w')%nat
    ∧ ((force = false ∧ recently_synced rid w
        ∧ skipped r = true ∧ synced r = false ∧ db w' = db w)
       ∨ (¬ (force = false ∧ recently_synced rid w)
          ∧ skipped r = false
          ∧ ((synced r = false ∧ db w' = db w)
             ∨ ∃ row n, (ticks w ≤ n)%nat ∧ rec_synced_at row = clock w n
                 ∧ recordings (tables (db w'))
                   = <[rid := row]> (recordings (tables (db w)))))).
Proof.
  intros rid. unfold processCall. fold rid.
  assert (Hbody : ∀ w1,
            clock w1 = clock w → (ticks w ≤ ticks w1)%nat → db w1 = db w →
            ¬ (force = false ∧ recently_synced rid w) →
            ∃ r w',
              (console_log (LogSyncing (call_title (metaData callData)));;
               try_write_call callData tm) w1 = (Ok r, w')
              ∧ clock w' = clock w ∧ (ticks w ≤ ticks w')%nat
              ∧ ((force = false ∧ recently_synced rid w
                  ∧ skipped r = true ∧ synced r = false ∧ db w' = db w)
                 ∨ (¬ (force = false ∧ recently_synced rid w)
                    ∧ skipped r = false
                    ∧ ((synced r = false ∧ db w' = db w)
                       ∨ ∃ row n, (ticks w ≤ n)%nat
                           ∧ rec_synced_at row = clock w n
                           ∧ recordings (tables (db w'))
                             = <[rid := row]> (recordings (tables (db w))))))).
  { intros w1 Hc1 Ht1 Hd1 Hnot. unfold bind, console_log.
    destruct (try_write_call_effect callData tm
                (set_console
                   (console w1 ++ [LogSyncing (call_title (metaData callData))])
                   w1))
      as (r & w' & -> & Hc & Ht & Hsk & Hcases).
    simpl in Hc, Ht, Hcases. exists r, w'. split; [done|].
    split_and!; [congruence|lia|]. right. split_and!; [done..|].
    destruct Hcases as [[Hs Hd]|(row & n & Hn & Hrow & Hrec)].
    - left. split; congruence.
    - right. exists row, n. fold rid in Hrec.
      split_and!; [lia|congruence|congruence]. }
  destruct force.
  - unfold bind at 1, ret at 1. cbn [negb andb].
    apply Hbody; [done|lia|done|]. by intros [? _].
  - unfold bind at 1. rewrite isRecentlySynced_eq.
    destruct (recordings (tables (db w)) !! rid) as [row|] eqn:Hrow.
    + case_bool_decide as Hfresh; cbn [negb andb].
      * eexists _, _. split; [reflexivity|]. simpl.
        split_and!; [done|lia|]. left. split_and!; try done.
        by exists row.
      * apply Hbody; [done|simpl; lia|done|].
        intros [_ (row' & Hrow' & Hlt)]. rewrite Hrow in Hrow'.
        injection Hrow' as <-. done.
    + cbn [negb andb]. apply Hbody; [done|lia|done|].
      intros [_ (row' & Hrow' & _)]. by rewrite Hrow in Hrow'.
Qed.

(** ** Two runs in a row *)

Lemma process_from_cons c calls tm force acc w :
  process_from (c :: calls) tm force acc w
  = match processCall c tm force w with
    | (Ok r, w1) => process_from calls tm force (acc ++ [r]) w1
    | (Throw e, w1) => (Throw e, w1)
    end.
Proof.
  unfold process_from. cbn [fold_m]. unfold bind at 1 2.
  by destruct (processCall c tm force w) as [[r|e] w1].
Qed.

(** A run whose clock never reads less than [T0]: what was synced since
    [T0] stays so, and every call reported as synced is. *)
Lemma process_from_stamps T0 tm force calls :
  ∀ acc w,
    (∀ n, (ticks w ≤ n)%nat → T0 ≤ clock w n) →
    ∃ results w',
      process_from calls tm force acc w = (Ok (acc ++ results), w')
      ∧ length results = length calls
      ∧ (∀ rid, synced_since T0 rid (db w) → synced_since T0 rid (db w'))
      ∧ (∀ i c r, calls !! i = Some c → results !! i = Some r →
           synced r = true →
           synced_since T0 (recording_id_of (metaData c)) (db w')).
Proof.
  induction calls as [|c calls IH]; intros acc w Hclock.
  - exists [], w. rewrite app_nil_r. by split_and!.
  - rewrite process_from_cons.
    destruct (processCall_effect c tm force w)
      as (r & w1 & -> & Hc1 & Ht1 & Hcases).
    destruct (IH (acc ++ [r]) w1) as (results & w' & -> & Hlen & Hkeep & Hnew).
    { intros n Hn. rewrite Hc1. apply Hclock. lia. }
    assert (Hstep : ∀ rid, synced_since T0 rid (db w) →
                           synced_since T0 rid (db w1)).
    { intros rid (row & Hrow & Hle).
      destruct Hcases as [(_ & _ & _ & _ & ->)|(_ & _ & [[_ ->]|Hup])];
        [by exists row..|].
      destruct Hup as (row' & n & Hn & Hstamp & Hrec).
      unfold synced_since. rewrite Hrec.
      destruct (decide (recording_id_of (metaData c) = rid)) as [->|Hne].
      - exists row'. rewrite lookup_insert_eq. split; [done|].
        rewrite Hstamp. by apply Hclock.
      - exists row. by rewrite lookup_insert_ne. }
    exists (r :: results), w'. rewrite <- app_assoc. split_and!; try done.
    + simpl. by rewrite Hlen.
    + intros rid H. by apply Hkeep, Hstep.
    + intros [|i] c' r' Hc' Hr' Hs; simpl in Hc', Hr'; [|by eapply Hnew].
      injection Hc' as <-. injection Hr' as <-. apply Hkeep.
      destruct Hcases as [(_ & _ & _ & Hs' & _)|(_ & _ & [[Hs' _]|Hup])];
        [congruence..|].
      destruct Hup as (row' & n & Hn & Hstamp & Hrec).
      exists row'. rewrite Hrec, lookup_insert_eq. split; [done|].
      rewrite Hstamp. by apply Hclock.
Qed.

(** A run without force whose clock stays within the hour after [T0]
    skips every call synced since [T0]. *)
Lemma process_from_skips T0 tm calls :
  ∀ acc w,
    (∀ n, (ticks w ≤ n)%nat → T0 ≤ clock w n < T0 + 60 * 60 * 1000) →
    ∃ results w',
      process_from calls tm false acc w = (Ok (acc ++ results), w')
      ∧ length results = length calls
      ∧ (∀ rid, synced_since T0 rid (db w) → synced_since T0 rid (db w'))
      ∧ (∀ i c r, calls !! i = Some c → results !! i = Some r →
           synced_since T0 (recording_id_of (metaData c)) (db w) →
           skipped r = true ∧ synced r = false)
      ∧ ((∀ c, c ∈ calls →
            synced_since T0 (recording_id_of (metaData c)) (db w)) →
         db w' = db w).
Proof.
  induction calls as [|c calls IH]; intros acc w Hclock.
  - exists [], w. rewrite app_nil_r. by split_and!.
  - rewrite process_from_cons.
    destruct (processCall_effect c tm false w)
      as (r & w1 & -> & Hc1 & Ht1 & Hcases).
    destruct (IH (acc ++ [r]) w1)
      as (results & w' & -> & Hlen & Hkeep & Hskip & Hsame).
    { intros n Hn. rewrite Hc1. apply Hclock. lia. }
    assert (Hstep : ∀ rid, synced_since T0 rid (db w) →
                           synced_since T0 rid (db w1)).
    { intros rid (row & Hrow & Hle).
      destruct Hcases as [(_ & _ & _ & _ & ->)|(_ & _ & [[_ ->]|Hup])];
        [by exists row..|].
      destruct Hup as (row' & n & Hn & Hstamp & Hrec).
      unfold synced_since. rewrite Hrec.
      destruct (decide (recording_id_of (metaData c) = rid)) as [->|Hne].
      - exists row'. rewrite lookup_insert_eq. split; [done|].
        rewrite Hstamp. by apply Hclock.
      - exists row. by rewrite lookup_insert_ne. }
    assert (Hhead : synced_since T0 (recording_id_of (metaData c)) (db w) →
                    skipped r = true ∧ synced r = false ∧ db w1 = db w).
    { intros (row & Hrow & Hle).
      destruct Hcases as [(_ & _ & ? & ? & ?)|(Hnot & _)]; [done|].
      destruct Hnot. split; [done|]. exists row. split; [done|].
      pose proof (Hclock (ticks w) ltac:(lia)). lia. }
    exists (r :: results), w'. rewrite <- app_assoc. split_and!; try done.
    + simpl. by rewrite Hlen.
    + intros rid H. by apply Hkeep, Hstep.
    + intros [|i] c' r' Hc' Hr' Hs; simpl in Hc', Hr'.
      * injection Hc' as <-. injection Hr' as <-.
        destruct (Hhead Hs) as (? & ? & _). done.
      * eapply Hskip; [done..|]. by apply Hstep.
    + intros Hall.
      destruct (Hhead (Hall c ltac:(left))) as (_ & _ & Hd1).
      rewrite <- Hd1. apply Hsame. intros c' Hc'. apply Hstep, Hall. by right.
Qed.

(** C3. [processCall] never throws; it reports a call as skipped exactly
    when force is off and the recording is stored with a [synced_at] less
    than one hour before the reading of the clock, and a skipped call
    leaves the database as it is.  Hence, for two runs without force over
    the same calls, the first not before [T0] and the second on the
    database that the first one left and within the hour after [T0]: every
    call that the first run reports as synced is reported as skipped by the
    second, and when the first run synced all the calls the second run
    leaves the database as it found it. *)
Theorem second_run_skips_synced_calls :
  (∀ callData tm force w,
     ∃ r w',
       processCall callData tm force w = (Ok r, w')
       ∧ (skipped r = true
          ↔ force = false
            ∧ recently_synced (recording_id_of (metaData callData)) w)
       ∧ (skipped r = true → synced r = false ∧ db w' = db w))
  ∧ (∀ T0 calls tm1 tm2 w results1 w1 w2,
       (∀ n, (ticks w ≤ n)%nat → T0 ≤ clock w n) →
       process_all calls tm1 false w = (Ok results1, w1) →
       db w2 = db w1 →
       (∀ n, (ticks w2 ≤ n)%nat → T0 ≤ clock w2 n < T0 + 60 * 60 * 1000) →
       ∃ results2 w2',
         process_all calls tm2 false w2 = (Ok results2, w2')
         ∧ (∀ i r1, results1 !! i = Some r1 → synced r1 = true →
              ∃ r2, results2 !! i = Some r2
                    ∧ skipped r2 = true ∧ synced r2 = false)
         ∧ (Forall (λ r, synced r = true) results1 → db w2' = db w2)).
Proof.
  split.
  - intros callData tm force w.
    destruct (processCall_effect callData tm force w)
      as (r & w' & Hrun & _ & _ & Hcases).
    exists r, w'. split; [done|].
    destruct Hcases as [(Hf & Hrec & Hsk & Hsy & Hd)|(Hnot & Hsk & _)].
    + split; [by split|done].
    + rewrite Hsk. split; [split; [done|]|done]. intros H. by destruct Hnot.
  - intros T0 calls tm1 tm2 w results1 w1 w2 Hclock1 Hrun1 Hdb Hclock2.
    destruct (process_from_stamps T0 tm1 false calls [] w Hclock1)
      as (res1 & w1' & Hrun1' & Hlen1 & _ & Hnew).
    change (process_from calls tm1 false [] w)
      with (process_all calls tm1 false w) in Hrun1'.
    rewrite Hrun1 in Hrun1'. injection Hrun1' as <- <-.
    destruct (process_from_skips T0 tm2 calls [] w2 Hclock2)
      as (results2 & w2' & Hrun2 & Hlen2 & _ & Hskip & Hsame).
    exists results2, w2'. split_and!; [exact Hrun2| |].
    + intros i r1 Hr1 Hs1.
      destruct (lookup_lt_is_Some_2 calls i) as [c Hc];
        [rewrite <- Hlen1; by eapply lookup_lt_Some|].
      destruct (lookup_lt_is_Some_2 results2 i) as [r2 Hr2];
        [rewrite Hlen2; by eapply lookup_lt_Some|].
      exists r2. split; [done|]. eapply Hskip; [done..|].
      rewrite Hdb. by eapply Hnew.
    + intros Hall. apply Hsame. intros c [i Hc]%list_elem_of_lookup.
      destruct (lookup_lt_is_Some_2 results1 i) as [r1 Hr1];
        [rewrite Hlen1; by eapply lookup_lt_Some|].
      rewrite Hdb. eapply Hnew; [done..|].
      rewrite Forall_lookup in Hall. by eapply Hall.
Qed.

(** ** Calls without a media URL *)



(** ** Missing credentials *)

(** C9, amended. When a credential is missing, [sync] logs that Gong is not
    configured and returns normally: the process ends with exit code 0; no
    request is sent, no answer of the provider is consumed, the database is
    neither opened nor written. *)
Theorem sync_without_credentials_returns (w : World) :
  ¬ configured w →
  ∃ w',
    sync w = (Ok tt, w')
    ∧ main w = (0, w')
    ∧ console w' = console w ++ [LogNotConfigured]
    ∧ requests w' = requests w
    ∧ calls_endpoint w' = calls_endpoint w
    ∧ transcript_endpoint w' = transcript_endpoint w
    ∧ db w' = db w
    ∧ db_opened w' = db_opened w.
Proof.
  intros Hnot.
  assert (Hfalse : JS.truthy_opt (GONG_ACCESS_KEY w)
                   && JS.truthy_opt (GONG_ACCESS_KEY_SECRET w) = false).
  { apply not_true_is_false. intros [Hk Hs]%andb_true_iff.
    apply Hnot. by split. }
  assert (Hsync : sync w
                  = (Ok tt, set_console (console w ++ [LogNotConfigured]) w)).
  { unfold sync, bind at 1, isGongConfigured. rewrite Hfalse. reflexivity. }
  eexists. split; [exact Hsync|]. unfold main. rewrite Hsync. by split_and!.
Qed.

(** ** The two bulk inserts *)

Lemma database_eta d :
  rollback_to d = None →
  {| tables := tables d; rollback_to := None; committed := committed d |} = d.
Proof. destruct d. simpl. by intros ->. Qed.

(** C1, amended. Outside a transaction, each of the two bulk inserts is
    atomic on its own: [insertSegments] either commits one new state that
    holds every row it was given (and the speakers as they were), or throws
    and leaves the database as it was; likewise [insertSpeakers].  The two
    are separate commits: when both succeed one after the other, the state
    committed by the segment insert, with the new segments and the speakers
    as before, is in the history of committed states, below the final one. *)
Theorem bulk_inserts_commit_separately
    (rid : string) (segs : list TranscriptSegment) (spks : list Speaker)
    (w : World) :
  rollback_to (db w) = None →
  (∀ r w1,
     insertSegments rid segs w = (r, w1) →
     (r = Ok tt
      ∧ committed (db w1) = tables (db w1) :: committed (db w)
      ∧ (∀ seg, seg ∈ segs →
           segments (tables (db w1)) !! (rid +:+ "-" +:+ seg_id seg)
           = Some (segment_row rid seg))
      ∧ speakers (tables (db w1)) = speakers (tables (db w)))
     ∨ ((∃ e, r = Throw e) ∧ db w1 = db w))
  ∧ (∀ r w1,
       insertSpeakers rid spks w = (r, w1) →
       (r = Ok tt
        ∧ committed (db w1) = tables (db w1) :: committed (db w)
        ∧ (∀ spk, spk ∈ spks →
             speakers (tables (db w1)) !! (rid +:+ "-" +:+ spk_id spk)
             = Some (speaker_row rid spk))
        ∧ segments (tables (db w1)) = segments (tables (db w)))
       ∨ ((∃ e, r = Throw e) ∧ db w1 = db w))
  ∧ (∀ w1 w2,
       insertSegments rid segs w = (Ok tt, w1) →
       insertSpeakers rid spks w1 = (Ok tt, w2) →
       committed (db w2)
       = tables (db w2) :: tables (db w1) :: committed (db w)
       ∧ (∀ seg, seg ∈ segs →
            segments (tables (db w1)) !! (rid +:+ "-" +:+ seg_id seg)
            = Some (segment_row rid seg))
       ∧ speakers (tables (db w1)) = speakers (tables (db w))).
Proof.
  intros Hroll.
  assert (Hseg : ∀ w0 r w1,
            insertSegments rid segs w0 = (r, w1) →
            (r = Ok tt
             ∧ committed (db w1) = tables (db w1) :: committed (db w0)
             ∧ (∀ seg, seg ∈ segs →
                  segments (tables (db w1)) !! (rid +:+ "-" +:+ seg_id seg)
                  = Some (segment_row rid seg))
             ∧ speakers (tables (db w1)) = speakers (tables (db w0)))
            ∨ ((∃ e, r = Throw e)
               ∧ db w1 = {| tables := tables (db w0); rollback_to := None;
                            committed := committed (db w0) |})).
  { intros w0 r w1. rewrite insertSegments_run.
    destruct (segment_inserts_tables rid segs (tables (db w0)))
      as (_ & Hs & _ & _ & _ & Hall).
    destruct (run_all _ _) as [[e|] t'] eqn:Hrun; intros [= <- <-]; simpl.
    - right. eauto.
    - left. split_and!; try done. by apply Hall. }
  assert (Hspk : ∀ w0 r w1,
            insertSpeakers rid spks w0 = (r, w1) →
            (r = Ok tt
             ∧ committed (db w1) = tables (db w1) :: committed (db w0)
             ∧ (∀ spk, spk ∈ spks →
                  speakers (tables (db w1)) !! (rid +:+ "-" +:+ spk_id spk)
                  = Some (speaker_row rid spk))
             ∧ segments (tables (db w1)) = segments (tables (db w0)))
            ∨ ((∃ e, r = Throw e)
               ∧ db w1 = {| tables := tables (db w0); rollback_to := None;
                            committed := committed (db w0) |})).
  { intros w0 r w1. rewrite insertSpeakers_run.
    destruct (speaker_inserts_tables rid spks (tables (db w0)))
      as (_ & Hs & _ & _ & _ & Hall).
    destruct (run_all _ _) as [[e|] t'] eqn:Hrun; intros [= <- <-]; simpl.
    - right. eauto.
    - left. split_and!; try done. by apply Hall. }
  split_and!.
  - intros r w1 H. destruct (Hseg w r w1 H) as [?|[? Hd]]; [by left|].
    right. split; [done|]. by rewrite Hd, database_eta.
  - intros r w1 H. destruct (Hspk w r w1 H) as [?|[? Hd]]; [by left|].
    right. split; [done|]. by rewrite Hd, database_eta.
  - intros w1 w2 H1 H2.
    destruct (Hseg w _ w1 H1) as [(_ & Hc1 & Hall & Hs1)|[[e ?] _]]; [|done].
    destruct (Hspk w1 _ w2 H2) as [(_ & Hc2 & _)|[[e ?] _]]; [|done].
    split_and!; [|done..]. by rewrite Hc2, Hc1.
Qed.

(** ** The properties on the example data *)

Lemma pair_eta {A B} (p : A * B) a : p.1 = a → p = (a, p.2).
Proof. destruct p. simpl. by intros ->. Qed.

(** C1 does not hold as stated: when the demo call is synced, the states
    committed one after the other hold 0, then 3 segment rows of the
    recording before any of its 2 speaker rows is there; the state with the
    segments alone is what a stop between the two inserts leaves behind. *)
Lemma segments_committed_without_speakers :
  rows_of "gong_1" <$> committed (db (main world_with_demo_call).2)
  = [(3, 2); (3, 0); (0, 0); (0, 0); (0, 0); (0, 0); (0, 0)]%nat.
Proof. vm_compute. reflexivity. Qed.

Lemma bulk_inserts_commit_separately_witness :
  ∃ w1 w2,
    insertSegments "gong_1" (parseGongTranscript demo_transcript ∅)
      world_with_recording = (Ok tt, w1)
    ∧ insertSpeakers "gong_1"
        (extractSpeakers (parseGongTranscript demo_transcript ∅)) w1
      = (Ok tt, w2)
    ∧ committed (db w2)
      = tables (db w2) :: tables (db w1) :: committed (db world_with_recording)
    ∧ speakers (tables (db w1)) = speakers (tables (db world_with_recording)).
Proof.
  destruct (insertSegments "gong_1" (parseGongTranscript demo_transcript ∅)
              world_with_recording) as [r1 w1] eqn:H1.
  assert (Hr1 : r1 = Ok tt).
  { apply (f_equal fst) in H1. vm_compute in H1. symmetry. exact H1. }
  assert (Hw1 : w1 = (insertSegments "gong_1"
                        (parseGongTranscript demo_transcript ∅)
                        world_with_recording).2).
  { apply (f_equal snd) in H1. symmetry. exact H1. }
  destruct (insertSpeakers "gong_1"
              (extractSpeakers (parseGongTranscript demo_transcript ∅)) w1)
    as [r2 w2] eqn:H2.
  assert (Hr2 : r2 = Ok tt).
  { apply (f_equal fst) in H2. rewrite Hw1 in H2. vm_compute in H2.
    symmetry. exact H2. }
  subst r1 r2.
  destruct (bulk_inserts_commit_separately "gong_1"
              (parseGongTranscript demo_transcript ∅)
              (extractSpeakers (parseGongTranscript demo_transcript ∅))
              world_with_recording) as (_ & _ & H); [reflexivity|].
  destruct (H w1 w2 H1 H2) as (Hc & _ & Hs).
  exists w1, w2. split_and!; [reflexivity|exact H2|exact Hc|exact Hs].
Defined.



(** C9 does not hold as stated: without the secret the run ends normally,
    with exit code 0 and no exception. *)
Lemma missing_credentials_is_not_a_failure :
  ¬ configured world_without_credentials
  ∧ (sync world_without_credentials).1 = Ok tt
  ∧ (main world_without_credentials).1 = 0.
Proof.
  split_and!; [|vm_compute; reflexivity..].
  intros [_ H]. discriminate H.
Qed.

Lemma sync_without_credentials_returns_witness :
  ∃ w',
    main world_without_credentials = (0, w')
    ∧ requests w' = [] ∧ db w' = db world_without_credentials.
Proof.
  destruct (sync_without_credentials_returns world_without_credentials)
    as (w' & _ & Hmain & _ & Hr & _ & _ & Hd & _).
  - intros [_ H]. discriminate H.
  - exists w'. split_and!; [exact Hmain|exact Hr|exact Hd].
Defined.


Lemma processCall_without_transcript_erases_witness :
  rows_of "gong_1" (tables (db world_with_stored_transcript)) = (1, 1)%nat
  ∧ length (extractSpeakersFromParties
              (JS.nullish (parties demo_call) [])) = 2%nat
  ∧ ∃ w',
      processCall demo_call ∅ true world_with_stored_transcript
      = (Ok {| synced := true; skipped := false; title := "Demo" |}, w')
      ∧ (∀ id row, segments (tables (db w')) !! id = Some row →
                   segment_recording_id row ≠ "gong_1")
      ∧ (∀ id row, speakers (tables (db w')) !! id = Some row →
                   speaker_recording_id row ≠ "gong_1").
Proof.
  split; [vm_compute; reflexivity|].
  split; [vm_compute; reflexivity|].
  destruct (processCall_without_transcript_erases demo_call ∅ true
              world_with_stored_transcript "https://media/1")
    as (w' & Hrun & _ & _ & _ & _ & _ & Hseg & Hspk).
  - left. reflexivity.
  - reflexivity.
  - reflexivity.
  - left. reflexivity.
  - exists w'. split_and!; [exact Hrun|exact Hseg|exact Hspk].
Defined.


Lemma second_run_skips_synced_calls_witness :
  ∃ w1 results2 w2',
    process_all [demo_call] {["1" := demo_transcript]} false demo_world
    = (Ok [ {| synced := true; skipped := false; title := "Demo" |} ], w1)
    ∧ process_all [demo_call] ∅ false (later_world 1700000000999 w1)
      = (Ok results2, w2')
    ∧ (∃ r2, results2 !! 0%nat = Some r2 ∧ skipped r2 = true)
    ∧ db w2' = db w1.
Proof.
  destruct (process_all [demo_call] {["1" := demo_transcript]} false
              demo_world) as [r1 w1] eqn:H1.
  assert (Hr1 : r1 = Ok [ {| synced := true; skipped := false;
                             title := "Demo" |} ]).
  { apply (f_equal fst) in H1. vm_compute in H1. symmetry. exact H1. }
  subst r1.
  destruct second_run_skips_synced_calls as (_ & Hruns).
  destruct (Hruns 1700000000000 [demo_call] {["1" := demo_transcript]} ∅
              demo_world
              [ {| synced := true; skipped := false; title := "Demo" |} ]
              w1 (later_world 1700000000999 w1))
    as (results2 & w2' & Hrun & Hskip & Hsame).
  - intros n _. simpl. lia.
  - exact H1.
  - reflexivity.
  - intros n _. simpl. lia.
  - exists w1, results2, w2'. split_and!; [reflexivity|exact Hrun| |].
    + destruct (Hskip 0%nat _ eq_refl eq_refl) as (r2 & Hr2 & Hs2 & _).
      exists r2. split; [exact Hr2|exact Hs2].
    + apply Hsame. repeat constructor.
Defined.

(** Two speaker names that differ only by case get the same row id: the
    speaker insert fails as a whole and the call counts as failed, with its
    segments stored and no speaker. *)
Example speaker_id_clash_keeps_segments_alone :
  let t := {| callId := "1";
              transcript :=
                [ {| entry_speakerId := "s1";
                     sentences := [ {| sentence_start := 0;
                                       sentence_end := 10;
                                       sentence_text := "a" |} ] |};
                  {| entry_speakerId := "s2";
                     sentences := [ {| sentence_start := 20;
                                       sentence_end := 30;
                                       sentence_text := "b" |} ] |} ] |} in
  let c := {| metaData := metaData demo_call;
              parties := Some [ {| party_id := "p1"; emailAddress := None;
                                   party_name := Some "Ann Lee";
                                   speakerId := Some "s1" |};
                                {| party_id := "p2"; emailAddress := None;
                                   party_name := Some "ann lee";
                                   speakerId := Some "s2" |} ];
              media := media demo_call |} in
  let out := processCall c {["1" := t]} false demo_world in
  out.1 = Ok {| synced := false; skipped := false; title := "Demo" |}
  ∧ rows_of "gong_1" (tables (db out.2)) = (2, 0)%nat.
Proof. split; vm_compute; reflexivity. Qed.

(** ** More on the transcript transformer *)

(** One step of the loop of [buildSpeakerMap], seen from one key. *)
Lemma buildSpeakerMap_step (m : gmap string string) p key :
  (let display := party_display_name p in
   let m1 := match speakerId p with
             | Some sid => if JS.truthy sid then <[sid := display]> m else m
             | None => m
             end in
   if JS.truthy (party_id p) then <[party_id p := display]> m1 else m1)
    !! key
  = if decide (carries p key) then Some (party_display_name p) else m !! key.
Proof.
  cbv zeta. unfold carries.
  destruct (decide _) as [[Hk [Hs|Hp]]|Hnot].
  - rewrite Hs, Hk. destruct (JS.truthy (party_id p)).
    + destruct (decide (party_id p = key)) as [Heq|Hne].
      * clear Hs. subst key. apply lookup_insert_eq.
      * rewrite lookup_insert_ne by done. apply lookup_insert_eq.
    + apply lookup_insert_eq.
  - subst key. by rewrite Hk, lookup_insert_eq.
  - assert (Hp : JS.truthy (party_id p) = true → party_id p ≠ key).
    { intros Ht Heq. apply Hnot. split; [by rewrite <- Heq|by right]. }
    assert (Hs : ∀ sid, speakerId p = Some sid → JS.truthy sid = true →
                        sid ≠ key).
    { intros sid Hsid Ht ->. apply Hnot. by split; [|left]. }
    destruct (JS.truthy (party_id p)) eqn:Htp;
      rewrite ?lookup_insert_ne by auto;
      destruct (speakerId p) as [sid|] eqn:Hsid; try done;
      destruct (JS.truthy sid) eqn:Hts; try done;
      by rewrite lookup_insert_ne by eauto.
Qed.

Lemma buildSpeakerMap_fold ps (m : gmap string string) key :
  fold_left
    (λ (map : gmap string string) party,
       let display :=
         JS.nullish (party_name party)
           (JS.nullish (emailAddress party) "Unknown") in
       let map :=
         match speakerId party with
         | Some sid => if JS.truthy sid then <[sid := display]> map else map
         | None => map
         end in
       if JS.truthy (party_id party)
       then <[party_id party := display]> map
       else map)
    ps m !! key
  = fold_left
      (λ found p,
         if decide (carries p key) then Some (party_display_name p)
         else found)
      ps (m !! key).
Proof.
  revert m. induction ps as [|p ps IH]; intros m; [done|].
  cbn [fold_left]. rewrite IH. f_equal. apply buildSpeakerMap_step.
Qed.

Lemma last_carrier_none key (l : list GongParty) found :
  (∀ q, q ∈ l → ¬ carries q key) →
  fold_left
    (λ found p,
       if decide (carries p key) then Some (party_display_name p) else found)
    l found = found.
Proof.
  revert found. induction l as [|q l IH]; intros found Hl; [done|].
  cbn [fold_left]. rewrite decide_False by (apply Hl; left). apply IH.
  intros q' Hq'. apply Hl. by right.
Qed.

Lemma last_carrier_some key (l : list GongParty) found name :
  fold_left
    (λ found p,
       if decide (carries p key) then Some (party_display_name p) else found)
    l found = Some name →
  found = Some name
  ∨ ∃ p, p ∈ l ∧ carries p key ∧ name = party_display_name p.
Proof.
  revert found. induction l as [|q l IH]; intros found H; [by left|].
  cbn [fold_left] in H. apply IH in H as [H|(p & Hp & Hc & Hn)].
  - destruct (decide (carries q key)) as [Hq|Hq]; [|by left].
    right. exists q. split_and!; [left|done|congruence].
  - right. exists p. split_and!; [by right|done..].
Qed.

Lemma last_carrier_is_Some key (l : list GongParty) found :
  is_Some found ∨ (∃ p, p ∈ l ∧ carries p key) →
  is_Some
    (fold_left
       (λ found p,
          if decide (carries p key) then Some (party_display_name p)
          else found)
       l found).
Proof.
  revert found. induction l as [|q l IH]; intros found H.
  - destruct H as [H|(p & Hp & _)]; [done|by apply elem_of_nil in Hp].
  - cbn [fold_left]. apply IH.
    destruct (decide (carries q key)) as [Hq|Hq]; [by left; eexists|].
    destruct H as [H|(p & Hp & Hc)]; [by left|].
    apply elem_of_cons in Hp as [->|Hp]; [done|]. right. eauto.
Qed.

(** X1. A key is resolved by the speaker map exactly when some party has it,
    non-empty, as speaker id or as party id; the name it resolves to is the
    display name (name, else address, else ["Unknown"]) of the last such
    party of the list. *)
Theorem buildSpeakerMap_last_party_wins (ps : list GongParty) (key : string) :
  (buildSpeakerMap ps !! key = None ↔ ∀ p, p ∈ ps → ¬ carries p key)
  ∧ (∀ name, buildSpeakerMap ps !! key = Some name →
       ∃ p, p ∈ ps ∧ carries p key ∧ name = party_display_name p)
  ∧ (∀ ps1 p ps2,
       ps = ps1 ++ p :: ps2 → carries p key →
       (∀ q, q ∈ ps2 → ¬ carries q key) →
       buildSpeakerMap ps !! key = Some (party_display_name p)).
Proof.
  unfold buildSpeakerMap. rewrite buildSpeakerMap_fold, lookup_empty.
  split_and!.
  - split.
    + intros H p Hp Hc.
      destruct (last_carrier_is_Some key ps None) as [x Hx]; [right; eauto|].
      congruence.
    + intros H. by apply last_carrier_none.
  - intros name H. apply last_carrier_some in H as [H|H]; [done|exact H].
  - intros ps1 p ps2 -> Hc Hrest.
    rewrite fold_left_app. cbn [fold_left]. rewrite decide_True by done.
    by apply last_carrier_none.
Qed.

(** ** Speaker ids *)







Lemma all_chars_impl (P Q : ascii → bool) s :
  (∀ c, P c = true → Q c = true) →
  all_chars P s = true → all_chars Q s = true.
Proof.
  intros HPQ. induction s as [|c s IH]; [done|]. cbn [all_chars].
  intros [Hc Hs]%andb_true_iff. by rewrite (HPQ c Hc), IH.
Qed.




(** ** Speakers taken from the parties *)

Lemma imap_make_speaker_names names :
  map spk_name (imap make_speaker names) = names.
Proof.
  apply list_eq. intros i. rewrite list_lookup_fmap, list_lookup_imap.
  by destruct (names !! i).
Qed.




Lemma extractSpeakersFromParties_names_NoDup ps :
  NoDup (map spk_name (extractSpeakersFromParties ps)).
Proof.
  unfold extractSpeakersFromParties. cbv zeta.
  rewrite imap_make_speaker_names. apply add_values_NoDup, NoDup_nil_2.
Qed.


(** ** Segment ids *)

Lemma flatten_transcript_ids t sm :
  map seg_id (flatten_transcript t sm)
  = map (λ i, "seg-" +:+ pretty (N.of_nat (S i)))
      (seq 0 (length (entry_sentences t))).
Proof.
  rewrite flatten_transcript_spec. apply list_eq. intros i.
  rewrite !list_lookup_fmap, list_lookup_imap.
  destruct (entry_sentences t !! i) as [p|] eqn:Hp; simpl.
  - rewrite lookup_seq_lt by (by eapply lookup_lt_Some). done.
  - rewrite lookup_seq_ge by (by apply lookup_ge_None). done.
Qed.

Lemma parseGongTranscript_ids t sm :
  map seg_id (parseGongTranscript t sm)
  ≡ₚ map (λ i, "seg-" +:+ pretty (N.of_nat (S i)))
       (seq 0 (length (entry_sentences t))).
Proof.
  unfold parseGongTranscript. rewrite (sort_perm startTime).
  apply reflexive_eq, flatten_transcript_ids.
Qed.

Lemma parseGongTranscript_ids_NoDup t sm :
  NoDup (map seg_id (parseGongTranscript t sm)).
Proof.
  rewrite parseGongTranscript_ids. apply NoDup_fmap_2; [|apply NoDup_seq].
  intros i j Hij. apply (inj (String.append "seg-")) in Hij.
  apply (inj pretty) in Hij. lia.
Qed.

(** X4. The ids of the segments that [parseGongTranscript] returns are
    [seg-1] to [seg-n], where [n] is the number of sentences of the
    transcript: each exactly once, whatever the order the sort leaves them
    in. *)
Theorem parseGongTranscript_segment_ids
    (t : GongCallTranscript) (speakerMap : gmap string string) :
  let out := parseGongTranscript t speakerMap in
  let n := length (entry_sentences t) in
  length out = n
  ∧ NoDup (map seg_id out)
  ∧ (∀ id, id ∈ map seg_id out ↔
       ∃ k : nat, (1 ≤ k ≤ n)%nat ∧ id = "seg-" +:+ pretty (N.of_nat k)).
Proof.
  intros out n.
  pose proof (parseGongTranscript_ids t speakerMap) as Hperm.
  fold out n in Hperm.
  split_and!.
  - apply Permutation_length in Hperm.
    by rewrite !length_map, length_seq in Hperm.
  - apply parseGongTranscript_ids_NoDup.
  - intros id. rewrite Hperm, list_elem_of_fmap. split.
    + intros (i & -> & Hi). apply elem_of_seq in Hi.
      exists (S i). split; [lia|done].
    + intros (k & Hk & ->). exists (pred k). split.
      * by replace (S (pred k)) with k by lia.
      * apply elem_of_seq. lia.
Qed.

(** ** The recording built for the application *)

Lemma extractSpeakers_names segs n :
  n ∈ map spk_name (extractSpeakers segs) ↔ n ∈ map speaker segs.
Proof.
  unfold extractSpeakers. cbv zeta. rewrite imap_make_speaker_names.
  unfold JS.set_values. rewrite add_values_elem_of, elem_of_nil. tauto.
Qed.

Lemma extractSpeakers_NoDup segs : NoDup (map spk_name (extractSpeakers segs)).
Proof.
  unfold extractSpeakers. cbv zeta. rewrite imap_make_speaker_names.
  apply add_values_NoDup, NoDup_nil_2.
Qed.

(** X5. The recording that [transformGongCall] builds and what the sync
    script stores for the same call agree: same recording id, same title
    (with the same fallback), description, media URL, duration, space,
    source and creation date as the stored row, and the same segments.
    With a transcript that has at least one entry the speakers are the
    same too; without one (or with one that has no entry) the script
    stores no speaker while [transformGongCall] lists the parties.  In
    every case the speakers have distinct names and every segment is
    spoken by one of them; the list item made for the call has the same id,
    title and creation date. *)
Theorem transformGongCall_agrees_with_sync
    (call : GongCall) (ps : list GongParty)
    (callTranscript : option GongCallTranscript) (mediaUrl : string)
    (mediaUrlExpiresAt : option string) :
  let data := transformGongCall call ps callTranscript mediaUrl
                mediaUrlExpiresAt in
  let stored := transform_transcript callTranscript (buildSpeakerMap ps) in
  let item := transformGongCallToListItem call ps in
  data_id data = recording_id_of call
  ∧ (∀ now synced,
       let row := recording_row call mediaUrl now synced in
       data_title data = rec_title row
       ∧ data_description data = rec_description row
       ∧ data_videoUrl data = rec_video_url row
       ∧ data_duration data = rec_duration row
       ∧ data_space data = rec_space row
       ∧ data_source data = rec_source row
       ∧ data_createdAt data = rec_created_at row)
  ∧ data_transcript data = stored.1
  ∧ (∀ t, callTranscript = Some t → transcript t ≠ [] →
       data_speakers data = stored.2)
  ∧ (callTranscript = None
     ∨ (∃ t, callTranscript = Some t ∧ transcript t = []) →
       data_transcript data = [] ∧ stored.2 = []
       ∧ data_speakers data = extractSpeakersFromParties ps)
  ∧ NoDup (map spk_name (data_speakers data))
  ∧ (∀ seg, seg ∈ data_transcript data →
       ∃ s, s ∈ data_speakers data ∧ spk_name s = speaker seg)
  ∧ item_id item = data_id data
  ∧ item_title item = data_title data
  ∧ item_createdAt item = data_createdAt data.
Proof.
  intros data stored item. unfold data, stored, item.
  unfold transformGongCall, transform_transcript.
  destruct callTranscript as [t|].
  2:{ cbn. split_and!; try done.
      - apply (extractSpeakersFromParties_names_NoDup ps).
      - by intros seg ?%elem_of_nil. }
  destruct (transcript t) as [|e es] eqn:Ht.
  { cbn [length]. rewrite !bool_decide_eq_false_2 by lia. cbn.
    split_and!; try done.
    - intros t' [= <-]. congruence.
    - apply (extractSpeakersFromParties_names_NoDup ps).
    - by intros seg ?%elem_of_nil. }
  cbn [length]. rewrite !bool_decide_eq_true_2 by lia. cbn.
  split_and!; try done.
  - intros [?|(t' & [= <-] & Ht')]; [done|]. congruence.
  - apply extractSpeakers_NoDup.
  - intros seg Hseg.
    assert (speaker seg ∈ map spk_name
              (extractSpeakers (parseGongTranscript t (buildSpeakerMap ps))))
      as (s & Hs & Hin)%list_elem_of_fmap
      by (apply extractSpeakers_names, list_elem_of_fmap; eauto).
    eauto.
Qed.

(** ** The command line *)


Lemma pretty_N_go_digits x s :
  all_chars (λ c, bool_decide (is_Some (JS.digit_of c))) s = true →
  all_chars (λ c, bool_decide (is_Some (JS.digit_of c))) (pretty_N_go x s)
  = true.
Proof.
  revert s. induction (N.lt_wf_0 x) as [x _ IH]. intros s Hs.
  destruct (decide (x = 0)%N) as [->|Hx]; [by rewrite pretty_N_go_0|].
  rewrite pretty_N_go_step by lia. apply IH; [apply N.div_lt; lia|].
  cbn [all_chars]. rewrite Hs, andb_true_r. apply bool_decide_eq_true.
  rewrite digit_of_pretty_N_char by (apply N.mod_lt; lia). by eexists.
Qed.

Lemma pretty_N_digits (n : N) :
  all_chars (λ c, bool_decide (is_Some (JS.digit_of c))) (pretty n) = true.
Proof.
  unfold pretty, pretty_N. destruct (decide (n = 0)%N); [done|].
  by apply pretty_N_go_digits.
Qed.






(** ** Credentials *)


(** ** The transcript batches *)

Lemma batch_starts_S n :
  batch_starts (S n)
  = batch_starts n
    ++ (if decide (n mod TRANSCRIPT_BATCH_SIZE = 0)%nat then [n] else []).
Proof.
  unfold batch_starts. rewrite seq_S, filter_app. f_equal.
Qed.

Lemma div_round_up n :
  ((n + 49) / 50 = n / 50 + (if decide (n mod 50 = 0) then 0 else 1))%nat
  ∧ ((S n + 49) / 50 = S (n / 50))%nat.
Proof.
  pose proof (Nat.div_mod_eq n 50) as Hdiv.
  pose proof (Nat.mod_upper_bound n 50) as Hmod.
  split.
  - destruct (decide (n mod 50 = 0)%nat) as [Hz|Hnz]; symmetry.
    + apply Nat.div_unique with (r := 49%nat); lia.
    + apply Nat.div_unique with (r := (n mod 50 - 1)%nat); lia.
  - symmetry. apply Nat.div_unique with (r := (n mod 50)%nat); lia.
Qed.

Lemma batch_starts_multiples n :
  batch_starts n
  = map (λ k, TRANSCRIPT_BATCH_SIZE * k)%nat
      (seq 0 ((n + (TRANSCRIPT_BATCH_SIZE - 1)) / TRANSCRIPT_BATCH_SIZE)).
Proof.
  unfold TRANSCRIPT_BATCH_SIZE. change (50 - 1)%nat with 49%nat.
  induction n as [|n IH]; [done|].
  rewrite batch_starts_S, IH. unfold TRANSCRIPT_BATCH_SIZE.
  destruct (div_round_up n) as [Hup HS]. rewrite HS, Hup.
  pose proof (Nat.div_mod_eq n 50) as Hdiv.
  destruct (decide (n mod 50 = 0)%nat) as [Hz|Hnz].
  - rewrite Nat.add_0_r, seq_S, map_app. cbn [plus map]. do 2 f_equal. lia.
  - rewrite app_nil_r. do 2 f_equal. lia.
Qed.

Lemma concat_slices {A} (l : list A) (c m : nat) :
  concat (map (λ i, slice i (i + c) l) (map (λ k, c * k)%nat (seq 0 m)))
  = take (c * m) l.
Proof.
  induction m as [|m IH].
  - by rewrite Nat.mul_0_r.
  - rewrite seq_S, !map_app, concat_app, IH. cbn [plus map concat].
    rewrite app_nil_r. unfold slice.
    replace (c * m + c - c * m)%nat with c by lia.
    rewrite take_take_drop. f_equal. lia.
Qed.

(** X8. The batches in which the transcripts are asked for cut the list of
    calls into consecutive pieces: put end to end they give the list back,
    every batch holds between 1 and 50 calls, there are as many batches as
    the length divided by 50, rounded up, and the batch of rank [k] (from
    0) starts at index [50 * k]. *)
Theorem transcript_batches_partition {A} (calls : list A) :
  let starts := batch_starts (length calls) in
  let batches :=
    map (λ i, slice i (i + TRANSCRIPT_BATCH_SIZE) calls) starts in
  concat batches = calls
  ∧ Forall (λ b, 1 ≤ length b ≤ 50)%nat batches
  ∧ length batches = ((length calls + 49) / 50)%nat
  ∧ (∀ k i, starts !! k = Some i → i = (50 * k)%nat).
Proof.
  intros starts batches. unfold batches, starts.
  rewrite batch_starts_multiples. unfold TRANSCRIPT_BATCH_SIZE.
  change (50 - 1)%nat with 49%nat.
  pose proof (Nat.div_mod_eq (length calls + 49) 50) as Hdiv.
  pose proof (Nat.mod_upper_bound (length calls + 49) 50) as Hmod.
  split_and!.
  - rewrite (concat_slices calls 50). apply take_ge. lia.
  - apply Forall_forall. intros b Hb.
    apply list_elem_of_fmap in Hb as (i & -> & Hi).
    apply list_elem_of_fmap in Hi as (k & -> & Hk).
    apply elem_of_seq in Hk. unfold slice.
    rewrite length_take, length_drop. lia.
  - by rewrite !length_map, length_seq.
  - intros k i. rewrite list_lookup_fmap.
    destruct (seq 0 _ !! k) as [k'|] eqn:Hk; [|done].
    apply lookup_seq in Hk as [-> _]. by intros [= <-].
Qed.

(** ** The loop over the calls *)

Lemma try_write_call_result callData tm w :
  ∃ r w',
    try_write_call callData tm w = (Ok r, w')
    ∧ title r = call_title (metaData callData) ∧ skipped r = false.
Proof.
  unfold try_write_call, try_catch.
  destruct (media_url_of _ _) as [[|c u]|].
  1,3: by eexists _, _.
  destruct (write_call_effect (metaData callData)
              (JS.nullish (parties callData) [])
              (recording_id_of (metaData callData)) (String c u) tm w)
    as (r & w' & -> & _ & _ & _ & [->|[e ->]]); by eexists _, _.
Qed.

Lemma processCall_result callData tm force w :
  ∃ r w',
    processCall callData tm force w = (Ok r, w')
    ∧ title r = call_title (metaData callData)
    ∧ (skipped r = true → synced r = false ∧ force = false).
Proof.
  unfold processCall. unfold bind at 1.
  assert (∃ b w1, (if force then ret false
                   else isRecentlySynced
                          (recording_id_of (metaData callData))) w
                  = (Ok b, w1)) as (b & w1 & ->).
  { destruct force; [by eexists _, _|].
    destruct (isRecentlySynced_effect
                (recording_id_of (metaData callData)) w)
      as (b & w1 & -> & _). by eexists _, _. }
  destruct (negb force && b) eqn:Hskip.
  - eexists _, _. split; [reflexivity|]. simpl. split; [done|].
    intros _. split; [done|]. by destruct force.
  - unfold bind at 1, console_log at 1.
    match goal with
    | |- context [try_write_call _ _ ?w2] =>
        destruct (try_write_call_result callData tm w2)
          as (r & w' & -> & Ht & Hs)
    end.
    exists r, w'. split; [done|]. split; [done|]. congruence.
Qed.

Lemma counts_snoc results r :
  ¬ (synced r = true ∧ skipped r = true) →
  (count_synced (results ++ [r]) + count_skipped (results ++ [r])
   + count_failed (results ++ [r])
   = S (count_synced results + count_skipped results + count_failed results))%nat
  ∧ (skipped r = false →
       count_skipped (results ++ [r]) = count_skipped results).
Proof.
  intros Hex. unfold count_failed, count_skipped, count_synced.
  rewrite !filter_app, !length_app, !filter_cons, !filter_nil.
  destruct (synced r) eqn:Hs, (skipped r) eqn:Hk;
    [destruct Hex; by split|..];
    repeat (destruct (decide _) as [Hd|Hd];
            [try (by destruct Hd); try discriminate Hd
            |try (by destruct Hd)]);
    simpl; (split; [lia|done]).
Qed.

Lemma process_from_accounts tm force calls :
  ∀ acc w,
    ∃ results w',
      process_from calls tm force acc w = (Ok (acc ++ results), w')
      ∧ map title results = map (λ c, call_title (metaData c)) calls
      ∧ (count_synced (acc ++ results) + count_skipped (acc ++ results)
         + count_failed (acc ++ results)
         = count_synced acc + count_skipped acc + count_failed acc
           + length calls)%nat
      ∧ (force = true →
           count_skipped (acc ++ results) = count_skipped acc).
Proof.
  induction calls as [|c calls IH]; intros acc w.
  - exists [], w. rewrite app_nil_r. split_and!; [done|done|simpl; lia|done].
  - rewrite process_from_cons.
    destruct (processCall_result c tm force w) as (r & w1 & -> & Ht & Hsk).
    destruct (IH (acc ++ [r]) w1) as (results & w' & -> & Htitles & Hsum & Hf).
    destruct (counts_snoc acc r) as [Hone Hkeep].
    { intros [Hs Hk]. destruct (Hsk Hk). congruence. }
    exists (r :: results), w'. rewrite <- app_assoc in *. cbn [app] in *.
    split_and!; [done| |simpl; lia|].
    + simpl. by rewrite Ht, Htitles.
    + intros ->. rewrite Hf by done. apply Hkeep.
      destruct (skipped r) eqn:Hk; [|done]. by destruct (Hsk eq_refl).
Qed.

(** X9. The loop over the calls throws nothing and accounts for every
    call: it gives one result per call, in the order of the calls and
    under the call's title, and the three counts of the summary (synced,
    skipped, failed) add up to the number of calls; in force mode no call
    is counted as skipped. *)
Theorem process_all_accounts_for_every_call
    (calls : list CallData) (tm : gmap string GongCallTranscript)
    (force : bool) (w : World) :
  ∃ results w',
    process_all calls tm force w = (Ok results, w')
    ∧ map title results = map (λ c, call_title (metaData c)) calls
    ∧ (count_synced results + count_skipped results + count_failed results
       = length calls)%nat
    ∧ (force = true → count_skipped results = 0%nat).
Proof.
  destruct (process_from_accounts tm force calls [] w)
    as (results & w' & Hrun & Ht & Hsum & Hf).
  exists results, w'. split_and!; [exact Hrun|exact Ht|exact Hsum|].
  intros H. exact (Hf H).
Qed.

(** ** The transcript phase as a whole *)

Lemma getTranscripts_requests callIds w r w' :
  getTranscripts callIds w = (r, w') →
  asks_for callIds 1 w w'.
Proof.
  unfold getTranscripts, asks_for. destruct callIds as [|c cs].
  - intros [= <- <-]. exists []. rewrite app_nil_r. split_and!; [done|simpl; lia|done].
  - unfold gongFetch, bind.
    destruct (getGongAuthHeader w) as [[h|e] w0] eqn:Hh;
      destruct (getGongAuthHeader_world _ _ _ Hh) as [-> _].
    2:{ intros [= <- <-]. exists []. rewrite app_nil_r.
        split_and!; [done|simpl; lia|done]. }
    assert (Hone : ∀ w1, requests w1
                     = requests w ++ [CallsTranscript h (c :: cs)] →
              ∃ new, requests w1 = requests w ++ new ∧ (length new ≤ 1)%nat
                ∧ Forall (λ rq, ∃ h, rq = CallsTranscript h (c :: cs)) new).
    { intros w1 ->. eexists. split_and!; [done|simpl; lia|].
      apply Forall_singleton. by eexists. }
    unfold fetch_transcript.
    destruct (transcript_endpoint _) as [|[|resp] tail] eqn:Hs; simpl;
      try (intros [= <- <-]; by apply Hone).
    unfold handle_response, throw, ret.
    repeat case_match; intros [= <- <-]; by apply Hone.
Qed.

Lemma asks_for_trans callIds n m w w1 w2 :
  asks_for callIds n w w1 → asks_for callIds m w1 w2 →
  asks_for callIds (n + m) w w2.
Proof.
  intros (new1 & H1 & Hl1 & Hf1) (new2 & H2 & Hl2 & Hf2).
  exists (new1 ++ new2). rewrite H2, H1, <- app_assoc.
  split_and!; [done|rewrite length_app; lia|by apply Forall_app].
Qed.

(** A batch throws nothing but the rate-limit signal, asks only for its own
    ids, at most [MAX_RETRIES_PER_BATCH] times, sleeps at most one time
    fewer and writes nothing to the database. *)
Lemma fetch_batch_outcome turns callIds first last total :
  ∀ k tm w r w',
    fetch_batch turns callIds first last total k tm w = (r, w') →
    asks_for callIds (MAX_RETRIES_PER_BATCH - k) w w'
    ∧ (length (sleeps w')
       ≤ length (sleeps w) + (MAX_RETRIES_PER_BATCH - 1 - k))%nat
    ∧ db w' = db w
    ∧ (∀ e, r = Throw e → is_rate_limit e = true).
Proof.
  assert (Hnone : ∀ n w, asks_for callIds n w w).
  { intros n w. exists []. rewrite app_nil_r.
    split_and!; [done|simpl; lia|done]. }
  assert (Hcons : ∀ n w w1 c,
            asks_for callIds n w w1 →
            asks_for callIds n w (set_console c w1)).
  { intros n w w1 c H. exact H. }
  induction turns as [|turns IH]; intros k tm w r w' H.
  - injection H as <- <-. split_and!; [apply Hnone|lia|done|done].
  - destruct (decide (k < MAX_RETRIES_PER_BATCH)%nat) as [Hk|Hk].
    2:{ cbn [fetch_batch] in H. rewrite bool_decide_eq_false_2 in H by done.
        injection H as <- <-. split_and!; [apply Hnone|lia|done|done]. }
    destruct (getTranscripts callIds w) as [[p|e] w1] eqn:Hget;
      destruct (getTranscripts_effect _ _ _ _ Hget) as (Hs & Hd & _);
      pose proof (getTranscripts_requests _ _ _ _ Hget) as Hr.
    + rewrite (fetch_batch_success _ _ _ _ _ _ _ _ _ _ Hk Hget) in H.
      injection H as <- <-. simpl. rewrite Hs.
      split_and!; [|lia|done|done].
      apply Hcons. destruct Hr as (new & ? & ? & ?). exists new.
      split_and!; [done|lia|done].
    + destruct (is_rate_limit e) eqn:He.
      * destruct e as [d| | | |]; try done.
        destruct (decide (S k < MAX_RETRIES_PER_BATCH)%nat) as [Hk'|Hk'].
        -- rewrite (fetch_batch_retry _ _ _ _ _ _ _ _ _ _ Hk' Hget) in H.
           apply IH in H as (H1 & H2 & H3 & H4). simpl in H2, H3.
           rewrite length_app in H2. simpl in H2. rewrite Hs in H2.
           split_and!; [|unfold MAX_RETRIES_PER_BATCH in *; lia
                        |congruence|done].
           replace (MAX_RETRIES_PER_BATCH - k)%nat
             with (1 + (MAX_RETRIES_PER_BATCH - S k))%nat by lia.
           eapply asks_for_trans; [exact Hr|exact H1].
        -- rewrite (fetch_batch_exceeded _ _ _ _ _ _ _ _ _ _ Hk ltac:(lia) Hget) in H.
           injection H as <- <-. simpl. rewrite Hs.
           split_and!; [|lia|done|by intros e [= <-]].
           apply Hcons. destruct Hr as (new & ? & ? & ?). exists new.
           split_and!; [done|lia|done].
      * rewrite (fetch_batch_other_error _ _ _ _ _ _ _ _ _ _ Hk Hget He) in H.
        injection H as <- <-. simpl. rewrite Hs.
        split_and!; [|lia|done|done].
        apply Hcons. destruct Hr as (new & ? & ? & ?). exists new.
        split_and!; [done|lia|done].
Qed.

Lemma batch_ids_length (calls : list CallData) i :
  (i < length calls)%nat →
  (1 ≤ length (map (λ c, call_id (metaData c))
                 (slice i (i + TRANSCRIPT_BATCH_SIZE) calls))
   ≤ TRANSCRIPT_BATCH_SIZE)%nat.
Proof.
  intros Hi. unfold slice, TRANSCRIPT_BATCH_SIZE.
  rewrite length_map, length_take, length_drop. lia.
Qed.

Lemma fetch_batches_outcome (calls : list CallData) (starts : list nat) :
  Forall (λ i, i < length calls)%nat starts →
  ∀ tm w r w',
    fold_m starts
      (λ transcriptMap i,
         let batch := slice i (i + TRANSCRIPT_BATCH_SIZE) calls in
         let callIds := map (λ c, call_id (metaData c)) batch in
         fetch_batch MAX_RETRIES_PER_BATCH callIds (i + 1)
           (Nat.min (i + TRANSCRIPT_BATCH_SIZE) (length calls)) (length calls)
           0%nat transcriptMap)
      tm w = (r, w') →
    (∃ new, requests w' = requests w ++ new
       ∧ (length new ≤ MAX_RETRIES_PER_BATCH * length starts)%nat
       ∧ Forall (λ rq, ∃ h callIds, rq = CallsTranscript h callIds
                   ∧ (1 ≤ length callIds ≤ TRANSCRIPT_BATCH_SIZE)%nat) new)
    ∧ (length (sleeps w')
       ≤ length (sleeps w) + (MAX_RETRIES_PER_BATCH - 1) * length starts)%nat
    ∧ db w' = db w
    ∧ (∀ e, r = Throw e → is_rate_limit e = true).
Proof.
  induction 1 as [|i starts Hi Hstarts IH]; intros tm w r w' H.
  - injection H as <- <-. unfold MAX_RETRIES_PER_BATCH. cbn [length].
    split_and!; [|lia|done|done].
    exists []. rewrite app_nil_r. split_and!; [done|simpl; lia|done].
  - cbn [fold_m] in H. unfold bind at 1 in H. cbv zeta in H.
    destruct (fetch_batch _ _ _ _ _ _ tm w) as [[tm1|e] w1] eqn:Hbatch;
      apply fetch_batch_outcome in Hbatch
        as ((new1 & Hreq1 & Hlen1 & Hall1) & Hs1 & Hd1 & He1).
    all: assert (Hall1' : Forall
                   (λ rq, ∃ h callIds, rq = CallsTranscript h callIds
                      ∧ (1 ≤ length callIds ≤ TRANSCRIPT_BATCH_SIZE)%nat)
                   new1)
      by (eapply Forall_impl; [exact Hall1|];
          intros rq [h ->]; eexists _, _; split; [done|];
          by apply batch_ids_length).
    + apply IH in H as ((new2 & Hreq2 & Hlen2 & Hall2) & Hs2 & Hd2 & He2).
      unfold MAX_RETRIES_PER_BATCH in *. cbn [length].
      split_and!; [|lia|congruence|done].
      exists (new1 ++ new2). rewrite Hreq2, Hreq1, <- app_assoc.
      split_and!; [done|rewrite length_app; lia|by apply Forall_app].
    + injection H as <- <-.
      unfold MAX_RETRIES_PER_BATCH in *. cbn [length].
      split_and!; [|lia|done|by intros e' [= <-]; apply He1].
      exists new1. split_and!; [done|lia|done].
Qed.

Lemma batch_starts_in_range n :
  Forall (λ i, i < n)%nat (batch_starts n).
Proof.
  apply Forall_forall. intros i Hi. unfold batch_starts in Hi.
  apply list_elem_of_filter in Hi as [_ Hi]. apply elem_of_seq in Hi. lia.
Qed.

Lemma fetch_all_transcripts_outcome calls w r w' :
  fetch_all_transcripts calls w = (r, w') →
  db w' = db w ∧ ∀ e, r = Throw e → ∃ d, e = GongRateLimitError d.
Proof.
  intros Hout. unfold fetch_all_transcripts in Hout.
  apply fetch_batches_outcome in Hout as (_ & _ & Hd & He);
    [|apply batch_starts_in_range].
  split; [done|]. intros e ->. specialize (He e eq_refl).
  destruct e; try done. by eexists.
Qed.

(** X10. Whatever the provider answers, the transcript phase of a run over
    [n] calls writes nothing to the database, throws nothing but the
    rate-limit signal, and sends only transcript requests, each for 1 to
    50 call ids: at most 3 requests and 2 sleeps for each of the batches,
    whose number is [n] divided by 50, rounded up. *)
Theorem transcript_phase_budget (calls : list CallData) (w : World) :
  let out := fetch_all_transcripts calls w in
  let batches := ((length calls + 49) / 50)%nat in
  db out.2 = db w
  ∧ (∀ e, out.1 = Throw e → ∃ d, e = GongRateLimitError d)
  ∧ (∃ new, requests out.2 = requests w ++ new
       ∧ (length new ≤ 3 * batches)%nat
       ∧ Forall (λ rq, ∃ h callIds, rq = CallsTranscript h callIds
                   ∧ (1 ≤ length callIds ≤ 50)%nat) new)
  ∧ (length (sleeps out.2) ≤ length (sleeps w) + 2 * batches)%nat.
Proof.
  intros out batches.
  destruct out as [r w'] eqn:Hout. unfold out, fetch_all_transcripts in Hout.
  apply fetch_batches_outcome in Hout as (Hreq & Hs & Hd & He).
  2:{ apply batch_starts_in_range. }
  assert (Hn : length (batch_starts (length calls)) = batches).
  { rewrite batch_starts_multiples, length_map, length_seq. done. }
  rewrite Hn in Hreq, Hs. simpl. split_and!; [done| |exact Hreq|exact Hs].
  intros e ->. specialize (He e eq_refl). destruct e; try done. by eexists.
Qed.

(** ** What a call writes *)

(** The tables that [write_call] leaves, by the outcome of the two bulk
    inserts. *)
Lemma write_call_tables call ps rid url tm w :
  let t2 := cleared rid
              (recording_row call url (clock w (ticks w))
                 (clock w (S (ticks w))))
              (tables (db w)) in
  let stored := transform_transcript (tm !! call_id call)
                  (buildSpeakerMap ps) in
  ∃ r w',
    write_call call ps rid url tm w = (r, w')
    ∧ match run_all (segment_inserts rid stored.1) t2 with
      | (Some e, _) => r = Throw e ∧ tables (db w') = t2
      | (None, t3) =>
          match run_all (speaker_inserts rid stored.2) t3 with
          | (Some e, _) => r = Throw e ∧ tables (db w') = t3
          | (None, t4) =>
              r = Ok {| synced := true; skipped := false;
                        title := call_title call |}
              ∧ tables (db w') = t4
          end
      end.
Proof.
  intros t2 stored. unfold stored. clear stored.
  unfold write_call. unfold bind at 1, Date_now at 1. cbv beta zeta.
  destruct (transform_transcript (tm !! call_id call) (buildSpeakerMap ps))
    as [segs spks].
  cbn [fst snd].
  unfold bind at 1, upsertRecording, bind at 1, Date_now at 1,
    run_statement at 1.
  cbn [ticks set_ticks clock db tables].
  unfold bind at 1, deleteRecordingData.
  unfold bind at 1, run_statement at 1. cbn [db set_db tables].
  unfold bind at 1, run_statement at 1. cbn [db set_db tables].
  unfold bind at 1, run_statement at 1. cbn [db set_db tables].
  unfold run_statement at 1. cbn [db set_db tables].
  match goal with
  | |- context [bind _ _ ?w5] => set (w5' := w5)
  end.
  assert (Ht5 : tables (db w5') = t2) by reflexivity.
  clearbody w5'.
  unfold bind at 1.
  assert (Hseg : (if bool_decide (0 < length segs)%nat
                  then insertSegments rid segs else ret tt) w5'
                 = match run_all (segment_inserts rid segs) t2 with
                   | (Some e, _) =>
                       (Throw e,
                        set_db {| tables := t2; rollback_to := None;
                                  committed := committed (db w5') |} w5')
                   | (None, t3) =>
                       (Ok tt,
                        if bool_decide (0 < length segs)%nat
                        then set_db {| tables := t3; rollback_to := None;
                                       committed := t3 :: committed (db w5') |}
                               w5'
                        else w5')
                   end).
  { case_bool_decide as Hlen.
    - rewrite insertSegments_run, Ht5.
      by destruct (run_all _ _) as [[e|] t'].
    - destruct segs; [done|]. simpl in Hlen. lia. }
  rewrite Hseg. clear Hseg.
  destruct (run_all (segment_inserts rid segs) t2) as [[e|] t3] eqn:Hrun3.
  { eexists _, _. split; [reflexivity|]. by split. }
  match goal with
  | |- context [bind _ _ ?w6] => set (w6' := w6)
  end.
  assert (Ht6 : tables (db w6') = t3).
  { unfold w6'. case_bool_decide as Hlen; [done|].
    destruct segs; [|simpl in Hlen; lia].
    simpl in Hrun3. injection Hrun3 as <-. done. }
  clearbody w6'.
  unfold bind at 1.
  assert (Hspk : (if bool_decide (0 < length spks)%nat
                  then insertSpeakers rid spks else ret tt) w6'
                 = match run_all (speaker_inserts rid spks) t3 with
                   | (Some e, _) =>
                       (Throw e,
                        set_db {| tables := t3; rollback_to := None;
                                  committed := committed (db w6') |} w6')
                   | (None, t4) =>
                       (Ok tt,
                        if bool_decide (0 < length spks)%nat
                        then set_db {| tables := t4; rollback_to := None;
                                       committed := t4 :: committed (db w6') |}
                               w6'
                        else w6')
                   end).
  { case_bool_decide as Hlen.
    - rewrite insertSpeakers_run, Ht6.
      by destruct (run_all _ _) as [[e|] t'].
    - destruct spks; [done|]. simpl in Hlen. lia. }
  rewrite Hspk. clear Hspk.
  destruct (run_all (speaker_inserts rid spks) t3) as [[e|] t4] eqn:Hrun4.
  { eexists _, _. split; [reflexivity|]. by split. }
  unfold bind at 1, console_log at 1, ret.
  eexists _, _. split; [reflexivity|]. split; [done|].
  cbn [db set_console].
  case_bool_decide as Hlen; [done|].
  destruct spks; [|simpl in Hlen; lia].
  simpl in Hrun4. injection Hrun4 as <-. done.
Qed.

(** ** The rows of the other recordings *)

Lemma filter_other_recording {Row} (owner : Row → string) rid rid'
    (m : gmap string Row) :
  rid' ≠ rid →
  filter (λ kv, owner kv.2 = rid') (filter (λ kv, owner kv.2 ≠ rid) m)
  = filter (λ kv, owner kv.2 = rid') m.
Proof.
  intros Hne. apply map_filter_strong_ext. intros k row. simpl.
  rewrite map_lookup_filter_Some. simpl. split; [tauto|].
  intros [Ho Hk]. split_and!; [done..|congruence].
Qed.

Lemma recording_data_cleared rid rid' row t :
  rid' ≠ rid →
  recording_data rid' (cleared rid row t) = recording_data rid' t.
Proof.
  intros Hne. unfold recording_data, cleared. cbn.
  rewrite lookup_insert_ne by done.
  by rewrite !filter_other_recording by done.
Qed.

Lemma recording_data_segment_inserts rid rid' segs t :
  rid' ≠ rid →
  recording_data rid' (run_all (segment_inserts rid segs) t).2
  = recording_data rid' t.
Proof.
  intros Hne. revert t. induction segs as [|seg segs IH]; intros t; [done|].
  cbn [segment_inserts map run_all]. fold (segment_inserts rid segs).
  destruct (insert_row _ _ _ _ _ _ t) as [e|t1] eqn:Hins; [done|].
  rewrite IH. unfold insert_row in Hins.
  destruct (segments t !! (rid +:+ "-" +:+ seg_id seg)) eqn:Hold; [done|].
  destruct (recordings t !! rid); [|done].
  injection Hins as <-. unfold recording_data. cbn.
  rewrite map_filter_insert_not'; [done|simpl; congruence|].
  intros y Hy. congruence.
Qed.

Lemma recording_data_speaker_inserts rid rid' spks t :
  rid' ≠ rid →
  recording_data rid' (run_all (speaker_inserts rid spks) t).2
  = recording_data rid' t.
Proof.
  intros Hne. revert t. induction spks as [|spk spks IH]; intros t; [done|].
  cbn [speaker_inserts map run_all]. fold (speaker_inserts rid spks).
  destruct (insert_row _ _ _ _ _ _ t) as [e|t1] eqn:Hins; [done|].
  rewrite IH. unfold insert_row in Hins.
  destruct (speakers t !! (rid +:+ "-" +:+ spk_id spk)) eqn:Hold; [done|].
  destruct (recordings t !! rid); [|done].
  injection Hins as <-. unfold recording_data. cbn.
  rewrite map_filter_insert_not'; [done|simpl; congruence|].
  intros y Hy. congruence.
Qed.

Lemma write_call_other_recording call ps rid url tm w rid' :
  rid' ≠ rid →
  recording_data rid' (tables (db (write_call call ps rid url tm w).2))
  = recording_data rid' (tables (db w)).
Proof.
  intros Hne.
  destruct (write_call_tables call ps rid url tm w) as (r & w' & -> & Hcase).
  cbv zeta in Hcase. cbn [snd].
  set (t2 := cleared _ _ _) in Hcase.
  assert (H2 : recording_data rid' t2 = recording_data rid' (tables (db w)))
    by (by apply recording_data_cleared).
  pose proof (recording_data_segment_inserts rid rid'
                (transform_transcript (tm !! call_id call)
                   (buildSpeakerMap ps)).1 t2 Hne) as H3.
  destruct (run_all (segment_inserts _ _) t2) as [[e|] t3].
  { destruct Hcase as [_ ->]. done. }
  pose proof (recording_data_speaker_inserts rid rid'
                (transform_transcript (tm !! call_id call)
                   (buildSpeakerMap ps)).2 t3 Hne) as H4.
  simpl in H3.
  destruct (run_all (speaker_inserts _ _) t3) as [[e|] t4].
  { destruct Hcase as [_ ->]. congruence. }
  destruct Hcase as [_ ->]. simpl in H4. congruence.
Qed.

Lemma try_write_call_other_recording callData tm w rid' :
  rid' ≠ recording_id_of (metaData callData) →
  recording_data rid' (tables (db (try_write_call callData tm w).2))
  = recording_data rid' (tables (db w)).
Proof.
  intros Hne. unfold try_write_call, try_catch.
  destruct (media_url_of _ _) as [[|c u]|]; [done| |done].
  pose proof (write_call_other_recording (metaData callData)
                (JS.nullish (parties callData) [])
                (recording_id_of (metaData callData)) (String c u) tm w rid'
                Hne) as Hw.
  by destruct (write_call _ _ _ _ _ w) as [[r|e] w'].
Qed.

Lemma processCall_other_recording callData tm force w rid' :
  rid' ≠ recording_id_of (metaData callData) →
  recording_data rid' (tables (db (processCall callData tm force w).2))
  = recording_data rid' (tables (db w)).
Proof.
  intros Hne. unfold processCall. unfold bind at 1.
  assert (∃ b w1, (if force then ret false
                   else isRecentlySynced
                          (recording_id_of (metaData callData))) w
                  = (Ok b, w1) ∧ db w1 = db w) as (b & w1 & -> & Hd).
  { destruct force; [by eexists _, _|].
    destruct (isRecentlySynced_effect
                (recording_id_of (metaData callData)) w)
      as (b & w1 & -> & Hd & _). by eexists _, _. }
  destruct (negb force && b); [by rewrite <- Hd|].
  unfold bind at 1, console_log at 1.
  rewrite try_write_call_other_recording by done. simpl. by rewrite Hd.
Qed.

(** X11. [processCall] touches one recording only: whatever the outcome,
    the row of any other recording and its segments, speakers, video files
    and chat messages are after the call what they were before. *)
Theorem processCall_touches_one_recording
    (callData : CallData) (tm : gmap string GongCallTranscript)
    (force : bool) (w : World) (rid' : string) :
  rid' ≠ recording_id_of (metaData callData) →
  recording_data rid' (tables (db (processCall callData tm force w).2))
  = recording_data rid' (tables (db w)).
Proof. apply processCall_other_recording. Qed.

Lemma process_from_other_recording tm force rid' calls :
  (∀ c, c ∈ calls → recording_id_of (metaData c) ≠ rid') →
  ∀ acc w,
    recording_data rid' (tables (db (process_from calls tm force acc w).2))
    = recording_data rid' (tables (db w)).
Proof.
  induction calls as [|c calls IH]; intros Hcalls acc w; [done|].
  rewrite process_from_cons.
  pose proof (processCall_other_recording c tm force w rid') as Hc.
  destruct (processCall c tm force w) as [[r|e] w1]; simpl in Hc.
  - rewrite IH; [apply Hc|]; [|intros c' Hc'; apply Hcalls; by right].
    intros Heq. apply (Hcalls c); [left|done].
  - simpl. apply Hc. intros Heq. apply (Hcalls c); [left|done].
Qed.

(** X12. The loop over the calls leaves alone every recording that is not
    the recording of one of the calls: its row and its segments, speakers,
    video files and chat messages are the same after the loop. *)
Theorem process_all_touches_listed_recordings
    (calls : list CallData) (tm : gmap string GongCallTranscript)
    (force : bool) (w : World) (rid' : string) :
  (∀ c, c ∈ calls → recording_id_of (metaData c) ≠ rid') →
  recording_data rid' (tables (db (process_all calls tm force w).2))
  = recording_data rid' (tables (db w)).
Proof. intros H. by apply process_from_other_recording. Qed.

(** ** The rows of a synced call *)





(** ** When a call fails to be stored *)

Lemma segment_inserts_ok rid segs :
  ∀ t, is_Some (recordings t !! rid) →
    (run_all (segment_inserts rid segs) t).1 = None ↔
    NoDup (map seg_id segs)
    ∧ ∀ seg, seg ∈ segs → segments t !! (rid +:+ "-" +:+ seg_id seg) = None.
Proof.
  induction segs as [|seg segs IH]; intros t Hrec.
  - simpl. split; [|done]. intros _. split; [apply NoDup_nil_2|].
    by intros seg ?%elem_of_nil.
  - cbn [segment_inserts map run_all]. fold (segment_inserts rid segs).
    unfold insert_row at 1.
    destruct (segments t !! (rid +:+ "-" +:+ seg_id seg)) as [old|] eqn:Hold.
    { simpl. split; [done|]. intros [_ Hfresh].
      rewrite Hfresh in Hold; [done|left]. }
    destruct Hrec as [row Hrow]. rewrite Hrow.
    rewrite IH by (cbn; by rewrite Hrow).
    cbn [segments set_segments]. rewrite NoDup_cons. split.
    + intros [Hnd Hfresh]. split_and!; [|done|].
      * intros (seg' & Heq & Hin)%list_elem_of_fmap.
        specialize (Hfresh seg' Hin). rewrite <- Heq in Hfresh.
        by rewrite lookup_insert_eq in Hfresh.
      * intros seg' [->|Hin]%elem_of_cons; [done|].
        specialize (Hfresh seg' Hin).
        apply lookup_insert_None in Hfresh. tauto.
    + intros [[Hnotin Hnd] Hfresh]. split; [done|].
      intros seg' Hin. apply lookup_insert_None. split.
      * apply Hfresh. by right.
      * intros Heq. apply Hnotin. apply list_elem_of_fmap. exists seg'.
        split; [|done].
        apply (inj (String.append rid)), (inj (String.append "-")) in Heq.
        done.
Qed.

Lemma speaker_inserts_ok rid spks :
  ∀ t, is_Some (recordings t !! rid) →
    (run_all (speaker_inserts rid spks) t).1 = None ↔
    NoDup (map spk_id spks)
    ∧ ∀ spk, spk ∈ spks → speakers t !! (rid +:+ "-" +:+ spk_id spk) = None.
Proof.
  induction spks as [|spk spks IH]; intros t Hrec.
  - simpl. split; [|done]. intros _. split; [apply NoDup_nil_2|].
    by intros spk ?%elem_of_nil.
  - cbn [speaker_inserts map run_all]. fold (speaker_inserts rid spks).
    unfold insert_row at 1.
    destruct (speakers t !! (rid +:+ "-" +:+ spk_id spk)) as [old|] eqn:Hold.
    { simpl. split; [done|]. intros [_ Hfresh].
      rewrite Hfresh in Hold; [done|left]. }
    destruct Hrec as [row Hrow]. rewrite Hrow.
    rewrite IH by (cbn; by rewrite Hrow).
    cbn [speakers set_speakers]. rewrite NoDup_cons. split.
    + intros [Hnd Hfresh]. split_and!; [|done|].
      * intros (spk' & Heq & Hin)%list_elem_of_fmap.
        specialize (Hfresh spk' Hin). rewrite <- Heq in Hfresh.
        by rewrite lookup_insert_eq in Hfresh.
      * intros spk' [->|Hin]%elem_of_cons; [done|].
        specialize (Hfresh spk' Hin).
        apply lookup_insert_None in Hfresh. tauto.
    + intros [[Hnotin Hnd] Hfresh]. split; [done|].
      intros spk' Hin. apply lookup_insert_None. split.
      * apply Hfresh. by right.
      * intros Heq. apply Hnotin. apply list_elem_of_fmap. exists spk'.
        split; [|done].
        apply (inj (String.append rid)), (inj (String.append "-")) in Heq.
        done.
Qed.



(** ** How the run ends when the listing fails or finds nothing *)






(** X17. When the value given for [--months] is not a number, the run
    fails before it asks the provider anything: it ends with exit code 1
    on an invalid date, with the database opened, not closed, and not
    written. *)
Theorem unreadable_months_fail_the_run (w : World) :
  configured w →
  months_of_argv (argv w) = JS.NaN →
  ∃ w',
    main w = (1, w')
    ∧ last (console w')
      = Some (ErrSyncFailed (Error "RangeError: Invalid time value"))
    ∧ LogFetchingCallsList JS.NaN ∈ console w'
    ∧ requests w' = requests w
    ∧ calls_endpoint w' = calls_endpoint w
    ∧ transcript_endpoint w' = transcript_endpoint w
    ∧ db_opened w' = true ∧ db w' = db w.
Proof.
  intros Hc Hm.
  destruct Hc as [Hk Hs].
  unfold main, sync, bind at 1, isGongConfigured.
  rewrite Hk, Hs. cbn [andb negb].
  unfold bind at 1. unfold bind at 1, console_log at 1.
  set (force := bool_decide ("--force" ∈ argv w)).
  assert (∃ w0, (if force then console_log LogForceMode else ret tt)
                  (set_console (console w ++ [LogStarting]) w) = (Ok tt, w0)
                ∧ transcript_endpoint w0 = transcript_endpoint w
                ∧ calls_endpoint w0 = calls_endpoint w
                ∧ requests w0 = requests w
                ∧ db w0 = db w)
    as (w0 & Hw0 & Ht0 & Hc0 & Hr0 & Hd0).
  { destruct force; eexists; (split; [reflexivity|done]). }
  unfold bind at 1. rewrite Hw0.
  unfold bind at 1, console_log at 1.
  unfold bind at 1, initDb.
  unfold bind at 1, console_log at 1.
  unfold bind at 1, Date_now at 1.
  unfold bind at 1, Date_now at 1.
  unfold bind at 1, console_log at 1.
  rewrite Hm.
  unfold bind at 1, list_calls_or_return, try_catch.
  unfold bind at 1, months_before, throw.
  eexists. split; [reflexivity|].
  cbn [console db_opened db transcript_endpoint calls_endpoint requests
       set_console set_db_opened set_ticks].
  rewrite last_snoc. split_and!; try done.
  rewrite !elem_of_app, !list_elem_of_singleton. left. by right.
Qed.

(** ** When a bulk insert fails *)

Lemma segment_inserts_error rid segs :
  ∀ t e, (run_all (segment_inserts rid segs) t).1 = Some e →
         e = SqliteConstraint "segments".
Proof.
  induction segs as [|seg segs IH]; intros t e H; [done|].
  cbn [segment_inserts map run_all] in H. fold (segment_inserts rid segs) in H.
  destruct (insert_row _ _ _ _ _ _ t) as [e'|t'] eqn:Hins.
  - unfold insert_row in Hins. repeat case_match; simplify_eq/=; done.
  - by eapply IH.
Qed.

Lemma speaker_inserts_error rid spks :
  ∀ t e, (run_all (speaker_inserts rid spks) t).1 = Some e →
         e = SqliteConstraint "speakers".
Proof.
  induction spks as [|spk spks IH]; intros t e H; [done|].
  cbn [speaker_inserts map run_all] in H. fold (speaker_inserts rid spks) in H.
  destruct (insert_row _ _ _ _ _ _ t) as [e'|t'] eqn:Hins.
  - unfold insert_row in Hins. repeat case_match; simplify_eq/=; done.
  - by eapply IH.
Qed.

Lemma segment_inserts_need_recording rid seg segs t :
  recordings t !! rid = None →
  (run_all (segment_inserts rid (seg :: segs)) t).1 ≠ None.
Proof.
  intros Hnone. cbn [segment_inserts map run_all]. unfold insert_row.
  rewrite Hnone. by destruct (segments t !! _).
Qed.

Lemma speaker_inserts_need_recording rid spk spks t :
  recordings t !! rid = None →
  (run_all (speaker_inserts rid (spk :: spks)) t).1 ≠ None.
Proof.
  intros Hnone. cbn [speaker_inserts map run_all]. unfold insert_row.
  rewrite Hnone. by destruct (speakers t !! _).
Qed.

(** X18. A bulk insert succeeds exactly when it is given nothing, or when
    the recording is stored, no two of the rows have the same id and none
    of their keys is taken; otherwise it throws the constraint violation of
    its table.  So the rows of a recording cannot be inserted before the
    recording itself. *)
Theorem bulk_insert_succeeds_iff
    (rid : string) (segs : list TranscriptSegment) (spks : list Speaker)
    (w : World) :
  let t := tables (db w) in
  ((insertSegments rid segs w).1 = Ok tt ↔
     segs = []
     ∨ (is_Some (recordings t !! rid)
        ∧ NoDup (map seg_id segs)
        ∧ ∀ seg, seg ∈ segs →
            segments t !! (rid +:+ "-" +:+ seg_id seg) = None))
  ∧ ((insertSegments rid segs w).1 ≠ Ok tt →
       (insertSegments rid segs w).1 = Throw (SqliteConstraint "segments"))
  ∧ ((insertSpeakers rid spks w).1 = Ok tt ↔
       spks = []
       ∨ (is_Some (recordings t !! rid)
          ∧ NoDup (map spk_id spks)
          ∧ ∀ spk, spk ∈ spks →
              speakers t !! (rid +:+ "-" +:+ spk_id spk) = None))
  ∧ ((insertSpeakers rid spks w).1 ≠ Ok tt →
       (insertSpeakers rid spks w).1 = Throw (SqliteConstraint "speakers")).
Proof.
  intros t. rewrite insertSegments_run, insertSpeakers_run. fold t.
  split_and!.
  - destruct (run_all (segment_inserts rid segs) t) as [[e|] t'] eqn:Hrun;
      cbn [fst].
    + split; [done|]. intros [->|(Hrec & Hnd & Hfresh)]; [done|].
      pose proof (proj2 (segment_inserts_ok rid segs t Hrec)
                    (conj Hnd Hfresh)) as Hok.
      by rewrite Hrun in Hok.
    + split; [|done]. intros _.
      destruct segs as [|seg segs]; [by left|]. right.
      destruct (recordings t !! rid) as [row|] eqn:Hrow.
      * assert (Hrec : is_Some (recordings t !! rid)) by (by eexists).
        split; [done|]. rewrite Hrow in Hrec.
        apply (segment_inserts_ok rid (seg :: segs) t);
          [by rewrite Hrow|by rewrite Hrun].
      * destruct (segment_inserts_need_recording rid seg segs t Hrow).
        by rewrite Hrun.
  - pose proof (segment_inserts_error rid segs t) as Herr.
    destruct (run_all (segment_inserts rid segs) t) as [[e|] t']; cbn [fst];
      [|done].
    intros _. by rewrite (Herr e eq_refl).
  - destruct (run_all (speaker_inserts rid spks) t) as [[e|] t'] eqn:Hrun;
      cbn [fst].
    + split; [done|]. intros [->|(Hrec & Hnd & Hfresh)]; [done|].
      pose proof (proj2 (speaker_inserts_ok rid spks t Hrec)
                    (conj Hnd Hfresh)) as Hok.
      by rewrite Hrun in Hok.
    + split; [|done]. intros _.
      destruct spks as [|spk spks]; [by left|]. right.
      destruct (recordings t !! rid) as [row|] eqn:Hrow.
      * assert (Hrec : is_Some (recordings t !! rid)) by (by eexists).
        split; [done|]. rewrite Hrow in Hrec.
        apply (speaker_inserts_ok rid (spk :: spks) t);
          [by rewrite Hrow|by rewrite Hrun].
      * destruct (speaker_inserts_need_recording rid spk spks t Hrow).
        by rewrite Hrun.
  - pose proof (speaker_inserts_error rid spks t) as Herr.
    destruct (run_all (speaker_inserts rid spks) t) as [[e|] t']; cbn [fst];
      [|done].
    intros _. by rewrite (Herr e eq_refl).
Qed.

(** ** Durations as shown *)

Lemma all_chars_app P s1 s2 :
  all_chars P (s1 +:+ s2) = all_chars P s1 && all_chars P s2.
Proof.
  induction s1 as [|c s1 IH]; [done|].
  change (String c s1 +:+ s2) with (String c (s1 +:+ s2)).
  cbn [all_chars]. by rewrite IH, andb_assoc.
Qed.

Lemma pretty_Z_chars (z : Z) : all_chars is_sign_or_digit (pretty z) = true.
Proof.
  assert (Hpos : ∀ p : positive,
            all_chars is_sign_or_digit (pretty (Npos p)) = true).
  { intros p. eapply all_chars_impl; [|apply pretty_N_digits].
    intros c Hc. unfold is_sign_or_digit. by rewrite Hc. }
  destruct z as [|p|p]; [done|apply Hpos|].
  change (pretty (Z.neg p)) with ("-" +:+ pretty (Npos p)).
  rewrite all_chars_app, Hpos. done.
Qed.

(** Two texts that start with a run of characters passing a test, followed
    by a character that fails it, are equal only part by part. *)
Lemma span_inj P d1 d2 c1 c2 r1 r2 :
  all_chars P d1 = true → all_chars P d2 = true →
  P c1 = false → P c2 = false →
  d1 +:+ String c1 r1 = d2 +:+ String c2 r2 →
  d1 = d2 ∧ c1 = c2 ∧ r1 = r2.
Proof.
  intros H1 H2 Hc1 Hc2. revert d2 H2.
  induction d1 as [|a d1 IH]; intros [|b d2] H2 Heq.
  - by injection Heq as -> ->.
  - injection Heq as -> _. cbn [all_chars] in H2.
    apply andb_true_iff in H2 as [H2 _]. congruence.
  - injection Heq as -> _. cbn [all_chars] in H1.
    apply andb_true_iff in H1 as [H1 _]. congruence.
  - injection Heq as -> Heq. cbn [all_chars] in H1, H2.
    apply andb_true_iff in H1 as [_ H1]. apply andb_true_iff in H2 as [_ H2].
    destruct (IH H1 d2 H2 Heq) as (-> & -> & ->). done.
Qed.

(** X19. [formatDuration] shows whole minutes: below one hour the number
    of minutes followed by [m]; from one hour on the hours, [h], a space,
    and the remaining minutes, which are below 60, followed by [m].  Two
    durations are shown alike exactly when they have the same number of
    whole minutes. *)
Theorem formatDuration_whole_minutes (a b : Z) :
  (a < 3600 → formatDuration a = pretty (a / 60) +:+ "m")
  ∧ (3600 ≤ a →
       ∃ h r, 1 ≤ h ∧ 0 ≤ r < 60 ∧ a / 60 = 60 * h + r
              ∧ formatDuration a = pretty h +:+ "h " +:+ pretty r +:+ "m")
  ∧ (formatDuration a = formatDuration b ↔ a / 60 = b / 60).
Proof.
  assert (Hshort : ∀ x, x < 3600 →
            formatDuration x = pretty (x / 60) +:+ "m").
  { intros x Hx. unfold formatDuration. cbv zeta.
    rewrite bool_decide_eq_false_2; [done|].
    assert (x / 60 < 60); [|lia]. apply Z.div_lt_upper_bound; lia. }
  assert (Hlong : ∀ x, 3600 ≤ x →
            1 ≤ x / 60 / 60 ∧ 0 ≤ (x / 60) mod 60 < 60
            ∧ x / 60 = 60 * (x / 60 / 60) + (x / 60) mod 60
            ∧ formatDuration x
              = pretty (x / 60 / 60) +:+ "h " +:+ pretty ((x / 60) mod 60)
                +:+ "m").
  { intros x Hx. unfold formatDuration. cbv zeta.
    assert (60 ≤ x / 60) by (apply Z.div_le_lower_bound; lia).
    rewrite bool_decide_eq_true_2 by done.
    split_and!; [apply Z.div_le_lower_bound; lia
                |apply Z.mod_pos_bound; lia..
                |apply Z.div_mod; lia|done]. }
  assert (Hm : is_sign_or_digit "m" = false) by done.
  assert (Hh : is_sign_or_digit "h" = false) by done.
  split_and!; [apply Hshort| |].
  { intros Ha. destruct (Hlong a Ha) as (? & ? & ? & ?). eauto 10. }
  split; [|intros Heq; unfold formatDuration; by rewrite Heq].
  intros Heq.
  destruct (decide (a < 3600)) as [Ha|Ha], (decide (b < 3600)) as [Hb|Hb].
  - rewrite (Hshort a Ha), (Hshort b Hb) in Heq.
    apply span_inj with (P := is_sign_or_digit) in Heq
      as (Heq & _ & _); [|apply pretty_Z_chars..|done|done].
    by apply (inj pretty) in Heq.
  - destruct (Hlong b ltac:(lia)) as (_ & _ & _ & Hfb).
    rewrite (Hshort a Ha), Hfb in Heq.
    apply span_inj with (P := is_sign_or_digit) in Heq
      as (_ & Hc & _); [done|apply pretty_Z_chars..|done|done].
  - destruct (Hlong a ltac:(lia)) as (_ & _ & _ & Hfa).
    rewrite Hfa, (Hshort b Hb) in Heq.
    apply span_inj with (P := is_sign_or_digit) in Heq
      as (_ & Hc & _); [done|apply pretty_Z_chars..|done|done].
  - destruct (Hlong a ltac:(lia)) as (_ & _ & Hda & Hfa).
    destruct (Hlong b ltac:(lia)) as (_ & _ & Hdb & Hfb).
    rewrite Hfa, Hfb in Heq.
    apply span_inj with (P := is_sign_or_digit) in Heq
      as (Hhours & _ & Hrest); [|apply pretty_Z_chars..|done|done].
    apply (inj pretty) in Hhours.
    injection Hrest as Hrest.
    apply span_inj with (P := is_sign_or_digit) in Hrest
      as (Hmins & _ & _); [|apply pretty_Z_chars..|done|done].
    apply (inj pretty) in Hmins. lia.
Qed.

(** ** The transcript map *)

Lemma set_all_keyed ts tm :
  keyed_by_call_id tm → keyed_by_call_id (set_all ts tm).
Proof.
  unfold set_all. revert tm. induction ts as [|t ts IH]; intros tm Htm; [done|].
  cbn [fold_left]. apply IH. intros id t'.
  rewrite lookup_insert_Some. intros [[<- <-]|[_ H]]; [done|by apply Htm].
Qed.

Lemma fetch_batch_keyed turns callIds first last total :
  ∀ k tm w tm' w',
    fetch_batch turns callIds first last total k tm w = (Ok tm', w') →
    keyed_by_call_id tm → keyed_by_call_id tm'.
Proof.
  induction turns as [|turns IH]; intros k tm w tm' w' H Htm.
  - by injection H as <- <-.
  - destruct (decide (k < MAX_RETRIES_PER_BATCH)%nat) as [Hk|Hk].
    2:{ cbn [fetch_batch] in H. rewrite bool_decide_eq_false_2 in H by done.
        by injection H as <- <-. }
    destruct (getTranscripts callIds w) as [[p|e] w1] eqn:Hget.
    + rewrite (fetch_batch_success _ _ _ _ _ _ _ _ _ _ Hk Hget) in H.
      injection H as <- <-. by apply set_all_keyed.
    + destruct (is_rate_limit e) eqn:He.
      * destruct e as [d| | | |]; try done.
        destruct (decide (S k < MAX_RETRIES_PER_BATCH)%nat) as [Hk'|Hk'].
        -- rewrite (fetch_batch_retry _ _ _ _ _ _ _ _ _ _ Hk' Hget) in H.
           by eapply IH.
        -- by rewrite (fetch_batch_exceeded _ _ _ _ _ _ _ _ _ _ Hk
                         ltac:(lia) Hget) in H.
      * rewrite (fetch_batch_other_error _ _ _ _ _ _ _ _ _ _ Hk Hget He) in H.
        by injection H as <- <-.
Qed.

(** X20. The transcripts that the fetch phase hands to the processing of
    the calls are each stored under their own call id, so a call is never
    given the transcript that the provider returned for another call. *)
Theorem fetched_transcripts_keyed_by_call_id
    (calls : list CallData) (w : World)
    (tm : gmap string GongCallTranscript) (w' : World) :
  fetch_all_transcripts calls w = (Ok tm, w') →
  keyed_by_call_id tm
  ∧ ∀ c t, c ∈ calls → tm !! call_id (metaData c) = Some t →
           callId t = call_id (metaData c).
Proof.
  intros Hrun.
  assert (Hkeyed : keyed_by_call_id tm); [|split; [done|]; intros c t _; apply Hkeyed].
  unfold fetch_all_transcripts in Hrun.
  assert (Hempty : keyed_by_call_id (∅ : gmap string GongCallTranscript))
    by (by intros id t ?%lookup_empty_Some).
  revert Hrun Hempty.
  generalize (∅ : gmap string GongCallTranscript) as tm0. revert w.
  induction (batch_starts (length calls)) as [|i starts IH];
    intros w tm0 Hrun Htm0.
  - by injection Hrun as <- <-.
  - cbn [fold_m] in Hrun. unfold bind at 1 in Hrun. cbv zeta in Hrun.
    destruct (fetch_batch _ _ _ _ _ _ tm0 w) as [[tm1|e] w1] eqn:Hbatch;
      [|done].
    eapply IH; [exact Hrun|]. by eapply fetch_batch_keyed.
Qed.

(** ** The run once the calls are listed *)

Lemma getTranscripts_db_opened callIds w r w' :
  getTranscripts callIds w = (r, w') → db_opened w' = db_opened w.
Proof.
  unfold getTranscripts. destruct callIds as [|c cs].
  - by intros [= <- <-].
  - unfold gongFetch, bind.
    destruct (getGongAuthHeader w) as [[h|e] w0] eqn:Hh;
      destruct (getGongAuthHeader_world _ _ _ Hh) as [-> _];
      [|by intros [= <- <-]].
    unfold fetch_transcript.
    destruct (transcript_endpoint _) as [|[|resp] tail] eqn:Hs; simpl;
      try (by intros [= <- <-]).
    unfold handle_response, throw, ret.
    repeat case_match; by intros [= <- <-].
Qed.

Lemma fetch_batch_db_opened turns callIds first last total :
  ∀ k tm w r w',
    fetch_batch turns callIds first last total k tm w = (r, w') →
    db_opened w' = db_opened w.
Proof.
  induction turns as [|turns IH]; intros k tm w r w' H.
  - by injection H as <- <-.
  - destruct (decide (k < MAX_RETRIES_PER_BATCH)%nat) as [Hk|Hk].
    2:{ cbn [fetch_batch] in H. rewrite bool_decide_eq_false_2 in H by done.
        by injection H as <- <-. }
    destruct (getTranscripts callIds w) as [[p|e] w1] eqn:Hget;
      pose proof (getTranscripts_db_opened _ _ _ _ Hget) as Ho.
    + rewrite (fetch_batch_success _ _ _ _ _ _ _ _ _ _ Hk Hget) in H.
      by injection H as <- <-.
    + destruct (is_rate_limit e) eqn:He.
      * destruct e as [d| | | |]; try done.
        destruct (decide (S k < MAX_RETRIES_PER_BATCH)%nat) as [Hk'|Hk'].
        -- rewrite (fetch_batch_retry _ _ _ _ _ _ _ _ _ _ Hk' Hget) in H.
           apply IH in H. by rewrite H.
        -- rewrite (fetch_batch_exceeded _ _ _ _ _ _ _ _ _ _ Hk
                      ltac:(lia) Hget) in H.
           by injection H as <- <-.
      * rewrite (fetch_batch_other_error _ _ _ _ _ _ _ _ _ _ Hk Hget He) in H.
        by injection H as <- <-.
Qed.

Lemma fetch_all_transcripts_db_opened calls w r w' :
  fetch_all_transcripts calls w = (r, w') → db_opened w' = db_opened w.
Proof.
  unfold fetch_all_transcripts.
  generalize (∅ : gmap string GongCallTranscript) as tm0. revert w.
  induction (batch_starts (length calls)) as [|i starts IH]; intros w tm0 H.
  - by injection H as <- <-.
  - cbn [fold_m] in H. unfold bind at 1 in H. cbv zeta in H.
    destruct (fetch_batch _ _ _ _ _ _ tm0 w) as [[tm1|e] w1] eqn:Hbatch;
      apply fetch_batch_db_opened in Hbatch.
    + apply IH in H. congruence.
    + injection H as <- <-. done.
Qed.

(** X21. Once the calls are listed, the run can end in two ways only.
    Either it goes through: every call is processed, the summary is logged
    with counts that add up to the number of calls, the database is closed
    and nothing is thrown.  Or the fetch of a transcript batch gives up on
    rate limits: the rate-limit error is thrown on, no call has been
    processed, the database is as it was and is not closed. *)
Theorem run_after_listing
    (calls : list CallData) (force : bool) (w : World) :
  let out := sync_calls calls force w in
  (out.1 = Ok tt
   ∧ db_opened out.2 = false
   ∧ ∃ synced skipped failed,
       last (console out.2)
       = Some (LogComplete synced skipped
                 (if bool_decide (0 < failed)%nat then Some failed else None))
       ∧ (synced + skipped + failed = length calls)%nat
       ∧ (force = true → skipped = 0%nat))
  ∨ (∃ d, out.1 = Throw (GongRateLimitError d)
       ∧ db out.2 = db w
       ∧ db_opened out.2 = db_opened w).
Proof.
  intros out. unfold out. clear out.
  destruct (sync_calls calls force w) as [r wf] eqn:Hrun. cbn [fst snd].
  unfold sync_calls in Hrun.
  unfold bind at 1, console_log at 1 in Hrun. unfold bind at 1 in Hrun.
  set (w1 := set_console (console w ++ [LogFetchingTranscripts]) w) in Hrun.
  destruct (fetch_all_transcripts calls w1) as [[tm|e] w2] eqn:Hfetch.
  - left.
    unfold bind at 1, console_log at 1 in Hrun.
    unfold bind at 1, console_log at 1 in Hrun.
    unfold bind at 1 in Hrun.
    match type of Hrun with
    | context [process_all calls tm force ?w3] =>
        destruct (process_from_accounts tm force calls [] w3)
          as (results & w4 & Hall & _ & Hsum & Hf)
    end.
    unfold process_all in Hrun. unfold process_from in Hall.
    rewrite Hall in Hrun. cbn [app] in *.
    unfold bind at 1, console_log at 1 in Hrun.
    unfold bind at 1, db_close, ret in Hrun.
    injection Hrun as <- <-.
    cbn [db_opened console set_db_opened set_console].
    split_and!; [done..|].
    eexists _, _, _. rewrite last_snoc. split_and!; [reflexivity|exact Hsum|].
    intros ->. by apply Hf.
  - right. injection Hrun as <- <-.
    pose proof (fetch_all_transcripts_db_opened _ _ _ _ Hfetch) as Ho.
    destruct (fetch_all_transcripts_outcome _ _ _ _ Hfetch) as [Hd He].
    destruct (He e eq_refl) as [d ->].
    exists d. by split_and!.
Qed.

(** ** A delay that is not a number *)

(** X22. When the provider gives its [Retry-After] in a form that
    [parseInt] cannot read (a date, for one), the rate-limit error carries
    [NaN] as its number of seconds; the retry loop logs the wait, sleeps
    for [NaN] milliseconds and asks again: a good answer to the second
    request ends the batch with its transcripts. *)
Theorem unreadable_retry_after_sleeps_NaN
    (w : World) (callIds : list string) (first last total : nat)
    (tm : gmap string GongCallTranscript)
    (r1 r : Response GongTranscriptResponse) (header : string)
    (p : GongTranscriptResponse)
    (tail : list (Outcome GongTranscriptResponse)) :
  configured w → callIds ≠ [] →
  status r1 = 429 → retryAfter r1 = Some header →
  JS.truthy header = true → JS.parseInt header = JS.NaN →
  good_page r p →
  transcript_endpoint w = Responded r1 :: Responded r :: tail →
  handle_response r1 w = (Throw (GongRateLimitError JS.NaN), w)
  ∧ ∃ w',
      fetch_batch MAX_RETRIES_PER_BATCH callIds first last total 0 tm w
      = (Ok (set_all (callTranscripts p) tm), w')
      ∧ sleeps w' = sleeps w ++ [JS.NaN]
      ∧ console w'
        = console w ++ [LogRateLimitedWaiting 1 JS.NaN;
                        LogFetchedTranscripts first last total]
      ∧ transcript_endpoint w' = tail.
Proof.
  intros Hc Hne Hs Hh Ht Hnan Hg Hscript.
  destruct (getGongAuthHeader_configured w Hc) as [h Hauth].
  assert (Hsig : rate_limit_signal (Responded r1) JS.NaN).
  { exists r1. split_and!; [done..|].
    unfold retry_after_seconds. by rewrite Hh, Ht. }
  split.
  - unfold handle_response. rewrite Hs. cbn. unfold throw.
    unfold retry_after_seconds. by rewrite Hh, Ht, Hnan.
  - eexists. split.
    + unfold MAX_RETRIES_PER_BATCH at 1.
      erewrite fetch_batch_retry;
        [|unfold MAX_RETRIES_PER_BATCH; lia
         |by apply (getTranscripts_rate_limited w h _ _ JS.NaN _ Hne Hauth
                      Hscript)].
      erewrite fetch_batch_success;
        [done|unfold MAX_RETRIES_PER_BATCH; lia
         |apply (getTranscripts_good _ h _ r p tail Hne);
            [by eapply getGongAuthHeader_frame|done|done]].
    + simpl. rewrite <- !app_assoc. done.
Qed.

(** ** The further properties on the example data *)

Lemma processCall_touches_one_recording_witness :
  recording_data "gong_1"
    (tables (db (processCall second_call ∅ true
                   world_with_stored_transcript).2))
  = recording_data "gong_1" (tables (db world_with_stored_transcript)).
Proof.
  apply (processCall_touches_one_recording second_call ∅ true
           world_with_stored_transcript "gong_1").
  discriminate.
Defined.

Lemma process_all_touches_listed_recordings_witness :
  recording_data "gong_1"
    (tables (db (process_all [second_call; call_without_media] ∅ true
                   world_with_stored_transcript).2))
  = recording_data "gong_1" (tables (db world_with_stored_transcript)).
Proof.
  apply (process_all_touches_listed_recordings
           [second_call; call_without_media] ∅ true
           world_with_stored_transcript "gong_1").
  intros c Hc.
  apply elem_of_cons in Hc as [->|Hc]; [discriminate|].
  apply list_elem_of_singleton in Hc as ->. discriminate.
Defined.





Lemma unreadable_months_fail_the_run_witness :
  ∃ w',
    main (world_with_argument "--months=two") = (1, w')
    ∧ requests w' = []
    ∧ db_opened w' = true.
Proof.
  destruct (unreadable_months_fail_the_run
              (world_with_argument "--months=two"))
    as (w' & Hmain & _ & _ & Hreq & _ & _ & Hopen & _).
  - split; reflexivity.
  - reflexivity.
  - exists w'. split_and!; [exact Hmain|exact Hreq|exact Hopen].
Defined.

Lemma fetched_transcripts_keyed_by_call_id_witness :
  ∃ tm w',
    fetch_all_transcripts [demo_call] world_throttled_twice = (Ok tm, w')
    ∧ keyed_by_call_id tm.
Proof.
  destruct (fetch_all_transcripts [demo_call] world_throttled_twice)
    as [r w'] eqn:Hrun.
  assert (Hr : r = Ok {["1" := demo_transcript]}).
  { apply (f_equal fst) in Hrun. vm_compute in Hrun. symmetry. exact Hrun. }
  subst r.
  destruct (fetched_transcripts_keyed_by_call_id [demo_call]
              world_throttled_twice _ w' Hrun) as [Hkeyed _].
  exists {["1" := demo_transcript]}, w'. split; [reflexivity|exact Hkeyed].
Defined.

Lemma unreadable_retry_after_sleeps_NaN_witness :
  ∃ w',
    fetch_batch MAX_RETRIES_PER_BATCH ["1"] 1 1 1 0 ∅
      world_throttled_until_date
    = (Ok (set_all [demo_transcript] ∅), w')
    ∧ sleeps w' = [JS.NaN].
Proof.
  destruct (unreadable_retry_after_sleeps_NaN world_throttled_until_date
              ["1"] 1%nat 1%nat 1%nat ∅
              (too_many_requests (Some "Wed, 21 Oct 2015 07:28:00 GMT"))
              (transcripts_response [demo_transcript])
              "Wed, 21 Oct 2015 07:28:00 GMT"
              {| transcripts_requestId := "r";
                 callTranscripts := [demo_transcript] |}
              [])
    as (_ & w' & Hrun & Hs & _).
  - split; reflexivity.
  - discriminate.
  - reflexivity.
  - reflexivity.
  - reflexivity.
  - reflexivity.
  - split; reflexivity.
  - reflexivity.
  - exists w'. split; [exact Hrun|exact Hs].
Defined.
